(** * process_logo.py: black background removal and crop to content

    A shallow embedding of [src/process_logo.py].  The script is thirty
    lines of glue over the Pillow imaging library, so the development has
    two layers:

    - [Module PIL]: the Pillow primitives the script calls
      ([Image.convert], [getdata], [putdata], [getbbox], [crop]), written
      after the library's own algorithms;
    - the script itself: the threshold loop, the crop branch, and the
      top-level statement sequence over a small world (argv, disk, trace).

    Python integers are [Z]; a sequence is a [list]; the disk is a finite
    map from paths to files. *)

From stdpp Require Import gmap strings list.
From Stdlib Require Import ZArith Lia.

Local Open Scope Z_scope.

(** ** Exceptions and fallible computations *)

(** The exceptions the script can die with.  None is caught: each one
    ends the process with a traceback and exit status 1. *)
Inductive exn :=
| IndexError    (* sys.argv[i] past the end of the argument list *)
| DecodeError   (* Image.open / load: missing file or not an image *)
| TypeError     (* putdata: too many data entries *)
| ValueError    (* crop: right < left or lower < upper *)
| EncodeError.  (* save: the output file cannot be opened for writing *)

Inductive result (A : Type) :=
| Ok (a : A)
| Raise (e : exn).
Arguments Ok {A} a.
Arguments Raise {A} e.

Definition result_bind {A B} (r : result A) (k : A -> result B) : result B :=
  match r with
  | Ok a => k a
  | Raise e => Raise e
  end.

(** ** Pillow *)

Module PIL.

(** Pillow is a dependency of the script, not a part of it.  The
    definitions below follow the functions of Pillow that lines 8-28
    reach, on images of mode RGBA: [Image.convert] with the converters
    of Convert.c, [Image.getdata], [Image.putdata] with [getink],
    [Image.getbbox] with ImagingGetBBox, and [Image.crop]. *)

(** An RGBA pixel as [getdata] yields it: the tuple (r, g, b, a). *)
Definition pixel : Type := Z * Z * Z * Z.

Definition red (p : pixel) : Z := let '(r, _, _, _) := p in r.
Definition green (p : pixel) : Z := let '(_, g, _, _) := p in g.
Definition blue (p : pixel) : Z := let '(_, _, b, _) := p in b.
Definition alpha (p : pixel) : Z := let '(_, _, _, a) := p in a.

Definition transparent_black : pixel := (0, 0, 0, 0).

(** An image in mode RGBA: its size and its pixels in row-major order,
    origin at the top left. *)
Record image := Image {
  width : Z;
  height : Z;
  pixels : list pixel
}.

Definition is_byte (v : Z) : Prop := 0 <= v < 256.

Definition byte_pixel (p : pixel) : Prop :=
  is_byte (red p) /\ is_byte (green p) /\ is_byte (blue p) /\ is_byte (alpha p).

(** What the storage of a Pillow image guarantees: one 8-bit quadruple
    per position. *)
Record wf (im : image) : Prop := {
  wf_width : 0 <= width im;
  wf_height : 0 <= height im;
  wf_length : Z.of_nat (length (pixels im)) = width im * height im;
  wf_bytes : Forall byte_pixel (pixels im)
}.

(** [range(n)] *)
Definition range (n : Z) : list Z := map Z.of_nat (seq 0 (Z.to_nat n)).

(** [im.getdata()]: the flattened pixel sequence. *)
Definition getdata (im : image) : list pixel := pixels im.

(** CLIP8 of the C core: ink channels are clamped to 0..255. *)
Definition clip8 (v : Z) : Z :=
  if v <? 0 then 0 else if 255 <? v then 255 else v.

Definition getink (p : pixel) : pixel :=
  let '(r, g, b, a) := p in (clip8 r, clip8 g, clip8 b, clip8 a).

(** [im.putdata(data)]: copies the sequence into the image from the
    top-left corner on, clamping each channel; entries of the image
    past the end of the sequence keep their value; a sequence longer
    than the image is refused. *)
Definition putdata (im : image) (data : list pixel) : result image :=
  if width im * height im <? Z.of_nat (length data) then Raise TypeError
  else Ok {| width := width im;
             height := height im;
             pixels := map getink data ++ drop (length data) (pixels im) |}.

(** Pixel access of the C core, [im->image32[y][x]]. *)
Definition getpixel (im : image) (x y : Z) : pixel :=
  nth (Z.to_nat (y * width im + x)) (pixels im) transparent_black.

(** *** getbbox *)

(** The mask test of ImagingGetBBox, [im->image32[y][x] & mask].  For
    a mode with an alpha band (RGBA here) and [alpha_only] set, the
    mask keeps the alpha byte alone, so a pixel counts when its alpha
    is not zero; otherwise the mask keeps all four bytes, and a pixel
    counts when any channel is not zero. *)
Definition masked (alpha_only : bool) (p : pixel) : bool :=
  if alpha_only then negb (alpha p =? 0)
  else negb ((red p =? 0) && (green p =? 0) && (blue p =? 0) && (alpha p =? 0)).

(** One iteration of the inner loop over [x]; the state is
    ([has_data], [bbox[0]], [bbox[2]]). *)
Definition scan_pixel (hit : Z -> Z -> bool) (y : Z)
    (st : bool * Z * Z) (x : Z) : bool * Z * Z :=
  let '(has_data, b0, b2) := st in
  if hit x y then
    (true, (if x <? b0 then x else b0), (if x >=? b2 then x + 1 else b2))
  else st.

(** One iteration of the outer loop over [y]; the state is [bbox]. *)
Definition scan_row (hit : Z -> Z -> bool) (xsize : Z)
    (bbox : Z * Z * Z * Z) (y : Z) : Z * Z * Z * Z :=
  let '(b0, b1, b2, b3) := bbox in
  let '(has_data, b0', b2') :=
    fold_left (scan_pixel hit y) (range xsize) (false, b0, b2) in
  if has_data then (b0', (if b1 <? 0 then y else b1), b2', y + 1)
  else (b0', b1, b2', b3).

(** ImagingGetBBox: the box starts as (xsize, -1, 0, 0); a top that
    is still negative after the scan means "no data". *)
Definition scan (hit : Z -> Z -> bool) (xsize ysize : Z)
    : option (Z * Z * Z * Z) :=
  let '(b0, b1, b2, b3) :=
    fold_left (scan_row hit xsize) (range ysize) (xsize, -1, 0, 0) in
  if b1 <? 0 then None else Some (b0, b1, b2, b3).

(** [im.getbbox(alpha_only=...)] on an RGBA image: (left, upper,
    right, lower), right and lower exclusive, or None. *)
Definition getbbox_with (alpha_only : bool) (im : image)
    : option (Z * Z * Z * Z) :=
  scan (fun x y => masked alpha_only (getpixel im x y)) (width im) (height im).

(** [im.getbbox()], as line 26 calls it: the keyword argument
    [alpha_only] is left at its default, True. *)
Definition getbbox (im : image) : option (Z * Z * Z * Z) :=
  getbbox_with true im.

(** *** crop *)

(** A pixel of the source, or transparent black outside of it. *)
Definition getpixel_padded (im : image) (x y : Z) : pixel :=
  if (0 <=? x) && (x <? width im) && (0 <=? y) && (y <? height im)
  then getpixel im x y else transparent_black.

(** [im.crop(box)]: a new image of size (right - left, lower - upper)
    holding the pixels of the box; a box that is turned inside out is
    refused. *)
Definition crop (im : image) (box : Z * Z * Z * Z) : result image :=
  let '(x0, y0, x1, y1) := box in
  if x1 <? x0 then Raise ValueError
  else if y1 <? y0 then Raise ValueError
  else Ok {| width := x1 - x0;
             height := y1 - y0;
             pixels :=
               flat_map (fun y =>
                 map (fun x => getpixel_padded im (x + x0) (y + y0))
                     (range (x1 - x0)))
                 (range (y1 - y0)) |}.

(** *** Decoded files and convert *)

(** What a decoder hands over, by mode.  [trns] is the transparency
    entry of the file ([info["transparency"]]): a grey level for 1 and
    L, a colour for RGB, the alpha table of the palette for P.

    The modes whose conversion to RGB is arithmetic on tables of the
    library (CMYK, YCbCr, I, I;16, F, HSV, RGBX) share the constructor
    [Rendered]: such a raster is given by the colours its own converter
    to RGB renders, and by its colour key, if it has one, as the bytes
    the key is compared by.  Those converters store alpha 255; their
    colour arithmetic is not modelled.  A mode that has no conversion
    to RGBA (LAB) is not a raster: such a file is not decodable here. *)
Inductive raster :=
| Bilevel (trns : option Z) (px : list Z)
| L (trns : option Z) (px : list Z)
| LA (px : list (Z * Z))
| P (palette : list (Z * Z * Z)) (trns : list Z) (px : list Z)
| PA (palette : list (Z * Z * Z)) (px : list (Z * Z))
| RGB (trns : option (Z * Z * Z)) (px : list (Z * Z * Z))
| RGBA (px : list pixel)
| Rendered (trns : option (Z * Z * Z)) (px : list (Z * Z * Z)).

Record decoded := Decoded {
  d_width : Z;
  d_height : Z;
  d_raster : raster
}.



(** l2rgb then, with a transparency entry, rgbT2rgba. *)
Definition l2rgba (trns : option Z) (l : Z) : pixel :=
  match trns with
  | Some t => (l, l, l, (if l =? t then 0 else 255))
  | None => (l, l, l, 255)
  end.

(** bit2rgb then, with a transparency entry, rgbT2rgba: a pixel of
    mode 1 is black when zero and white otherwise. *)
Definition bit2rgba (trns : option Z) (v : Z) : pixel :=
  l2rgba trns (if v =? 0 then 0 else 255).

Definition la2rgba (la : Z * Z) : pixel :=
  let '(l, a) := la in (l, l, l, a).

(** pa2rgba: the colour of the palette entry, the alpha of the pixel. *)
Definition pa2rgba (palette : list (Z * Z * Z)) (pa : Z * Z) : pixel :=
  let '(i, a) := pa in
  let '(r, g, b) := nth (Z.to_nat i) palette (0, 0, 0) in
  (r, g, b, a).

(** p2rgba: the palette entry, with the alpha the palette holds for
    it once the transparency entry is applied (255 where the table has
    no entry; a single transparent index is the table that is 0 there
    and 255 below). *)
Definition p2rgba (palette : list (Z * Z * Z)) (trns : list Z) (i : Z) : pixel :=
  let '(r, g, b) := nth (Z.to_nat i) palette (0, 0, 0) in
  (r, g, b, nth (Z.to_nat i) trns 255).

(** rgb2rgba then, with a transparency entry, rgbT2rgba. *)
Definition rgb2rgba (trns : option (Z * Z * Z)) (c : Z * Z * Z) : pixel :=
  let '(r, g, b) := c in
  match trns with
  | Some (tr, tg, tb) =>
      (r, g, b, (if (r =? tr) && (g =? tg) && (b =? tb) then 0 else 255))
  | None => (r, g, b, 255)
  end.

(** [im.convert("RGBA")] *)
Definition convert_RGBA (d : decoded) : image :=
  {| width := d_width d;
     height := d_height d;
     pixels :=
       match d_raster d with
       | Bilevel trns px => map (bit2rgba trns) px
       | L trns px => map (l2rgba trns) px
       | LA px => map la2rgba px
       | P palette trns px => map (p2rgba palette trns) px
       | PA palette px => map (pa2rgba palette) px
       | RGB trns px => map (rgb2rgba trns) px
       | RGBA px => px
       | Rendered trns px => map (rgb2rgba trns) px
       end |}.

Definition byte_rgb (c : Z * Z * Z) : Prop :=
  let '(r, g, b) := c in is_byte r /\ is_byte g /\ is_byte b.

Definition raster_length (r : raster) : nat :=
  match r with
  | Bilevel _ px => length px
  | L _ px => length px
  | LA px => length px
  | P _ _ px => length px
  | PA _ px => length px
  | RGB _ px => length px
  | RGBA px => length px
  | Rendered _ px => length px
  end.

Definition raster_bytes (r : raster) : Prop :=
  match r with
  | Bilevel _ px => Forall is_byte px
  | L _ px => Forall is_byte px
  | LA px => Forall (fun la => is_byte (fst la) /\ is_byte (snd la)) px
  | P palette trns px =>
      Forall byte_rgb palette /\ Forall is_byte trns /\ Forall is_byte px
  | PA palette px =>
      Forall byte_rgb palette
      /\ Forall (fun pa => is_byte (fst pa) /\ is_byte (snd pa)) px
  | RGB _ px => Forall byte_rgb px
  | RGBA px => Forall byte_pixel px
  | Rendered _ px => Forall byte_rgb px
  end.

(** What a decoder guarantees of its result. *)
Record wf_decoded (d : decoded) : Prop := {
  wfd_width : 0 <= d_width d;
  wfd_height : 0 <= d_height d;
  wfd_length : Z.of_nat (raster_length (d_raster d)) = d_width d * d_height d;
  wfd_bytes : raster_bytes (d_raster d)
}.

End PIL.

Import PIL.

(** ** The script: lines 11-28 *)

Definition threshold : Z := 15.

(** The test of line 19. *)
Definition is_background (item : pixel) : bool :=
  (red item <? threshold) && (green item <? threshold) && (blue item <? threshold).

(** The body of the [for item in datas] loop: one [append]. *)
Definition loop_body (new_data : list pixel) (item : pixel) : list pixel :=
  if is_background item then new_data ++ [(0, 0, 0, 0)]
  else new_data ++ [item].

(** Lines 12-22: [new_data] after the loop. *)
Definition threshold_loop (datas : list pixel) : list pixel :=
  fold_left loop_body datas [].

(** Lines 11-24: the image after [img.putdata(new_data)]. *)
Definition threshold_step (img : image) : result image :=
  let datas := getdata img in
  let new_data := threshold_loop datas in
  putdata img new_data.

(** Lines 26-28: [bbox = img.getbbox(); if bbox: img = img.crop(bbox)]. *)
Definition crop_step (img : image) : result image :=
  match getbbox img with
  | Some bbox => crop img bbox
  | None => Ok img
  end.

(** Lines 11-28 on the RGBA buffer. *)
Definition process (img : image) : result image :=
  result_bind (threshold_step img) crop_step.

(** ** The script: the whole run *)

(** A file on disk: an image some decoder of the library reads into a
    raster, or anything else. *)
Inductive file :=
| ImageFile (d : decoded)
| OtherFile.

(** What the run does to the outside, in order. *)
Inductive event :=
| Print (line : string)                    (* a line on standard output *)
| OpenImage (path : string)                (* Image.open(path) *)
| SaveImage (path : string) (img : image). (* img.save(path, "PNG") *)

(** The world of one run: the files by path, the paths at which a file
    can be created or overwritten (the containing directory exists and
    is writable), and the events so far, oldest first. *)
Record world := World {
  disk : gmap string file;
  creatable : string -> bool;
  trace : list event
}.

Definition log (e : event) (w : world) : world :=
  {| disk := disk w; creatable := creatable w; trace := trace w ++ [e] |}.

Definition io (A : Type) : Type := world -> world * result A.

#[local] Instance io_ret : MRet io := fun A a w => (w, Ok a).

#[local] Instance io_bind : MBind io := fun A B k m w =>
  match m w with
  | (w', Ok a) => k a w'
  | (w', Raise e) => (w', Raise e)
  end.

Definition lift {A} (r : result A) : io A := fun w => (w, r).

(** [sys.argv[i]] *)
Definition argv_get (argv : list string) (i : nat) : io string :=
  match argv !! i with
  | Some s => mret s
  | None => lift (Raise IndexError)
  end.

(** [print(line)] *)
Definition print (line : string) : io unit :=
  fun w => (log (Print line) w, Ok tt).

(** [Image.open(path)], with the decoding the first use of the image
    forces: a missing path and a file no decoder recognizes both raise. *)
Definition Image_open (path : string) : io decoded :=
  fun w =>
    match disk w !! path with
    | Some (ImageFile d) => (log (OpenImage path) w, Ok d)
    | _ => (log (OpenImage path) w, Raise DecodeError)
    end.

(** What a decoder reads back from the PNG file of an RGBA buffer: the
    encoder is lossless, so it is the buffer itself, in mode RGBA. *)
Definition decoded_of (img : image) : decoded :=
  {| d_width := width img; d_height := height img; d_raster := RGBA (pixels img) |}.

Definition png (img : image) : file := ImageFile (decoded_of img).

(** [img.save(path, "PNG")]: opens the file for writing, which fails
    before a byte is written, then encodes into it. *)
Definition save (img : image) (path : string) : io unit :=
  fun w =>
    let w := log (SaveImage path img) w in
    if creatable w path then
      ({| disk := <[path := png img]> (disk w);
          creatable := creatable w; trace := trace w |}, Ok tt)
    else (w, Raise EncodeError).

(** The module body, top to bottom. *)
Definition main (argv : list string) : io unit :=
  image_path ← argv_get argv 1;
  output_path ← argv_get argv 2;
  print ("Opening " +:+ image_path);;
  img ← Image_open image_path;
  let img := convert_RGBA img in
  img ← lift (process img);
  print ("Saving to " +:+ output_path);;
  save img output_path;;
  print "Done".

(** The exit status of the interpreter: 0 when the module body runs to
    its end, 1 when it dies of an uncaught exception. *)
Definition exit_status (r : result unit) : Z :=
  match r with
  | Ok _ => 0
  | Raise _ => 1
  end.

(** One run of the program from a world with an empty trace. *)
Definition run (argv : list string) (w : world) : world * result unit :=
  main argv {| disk := disk w; creatable := creatable w; trace := [] |}.

(** * Vocabulary of the statements *)

(** ** Buffers *)

(** What the loop appends for one item. *)
Definition threshold_pixel (item : pixel) : pixel :=
  if is_background item then transparent_black else item.

(** The image [threshold_step] leaves behind. *)
Definition thresholded (img : image) : image :=
  {| width := width img; height := height img;
     pixels := map threshold_pixel (pixels img) |}.

(** What [getbbox()] looks for at a position: alpha is not zero. *)
Definition opaque_at (im : image) (x y : Z) : bool :=
  masked true (getpixel im x y).

(** ** Boxes *)

(** No position of the first [n] rows is hit. *)
Definition blank (hit : Z -> Z -> bool) (xsize n : Z) : Prop :=
  forall x y, 0 <= x < xsize -> 0 <= y < n -> hit x y = false.

(** [b] is a box of the first [n] rows that holds every hit and has a
    hit on each of its four sides. *)
Definition tight (hit : Z -> Z -> bool) (xsize n : Z) (b : Z * Z * Z * Z) : Prop :=
  let '(b0, b1, b2, b3) := b in
  (0 <= b0 < b2 /\ b2 <= xsize) /\ (0 <= b1 < b3 /\ b3 <= n) /\
  (forall x y, 0 <= x < xsize -> 0 <= y < n -> hit x y = true ->
     b0 <= x < b2 /\ b1 <= y < b3) /\
  (exists y, b1 <= y < b3 /\ hit b0 y = true) /\
  (exists y, b1 <= y < b3 /\ hit (b2 - 1) y = true) /\
  (exists x, b0 <= x < b2 /\ hit x b1 = true) /\
  (exists x, b0 <= x < b2 /\ hit x (b3 - 1) = true).

(** The state of the outer loop before row [n]: still the initial
    box and nothing hit so far, or the tight box of the rows above. *)
Definition scanned (hit : Z -> Z -> bool) (xsize n : Z) (b : Z * Z * Z * Z) : Prop :=
  (b = (xsize, -1, 0, 0) /\ blank hit xsize n) \/ tight hit xsize n b.

(** The crop as the specification words it: the box leaves nothing
    but (0, 0, 0, 0) outside and has a pixel other than (0, 0, 0, 0) on
    each of its four sides. *)
Definition crops_to_nonzero_box (im out : image) : Prop :=
  exists x0 y0 x1 y1,
    crop im (x0, y0, x1, y1) = Ok out /\
    (forall x y, 0 <= x < width im -> 0 <= y < height im ->
       ~ (x0 <= x < x1 /\ y0 <= y < y1) -> getpixel im x y = (0, 0, 0, 0)) /\
    (exists y, y0 <= y < y1 /\ getpixel im x0 y <> (0, 0, 0, 0)) /\
    (exists y, y0 <= y < y1 /\ getpixel im (x1 - 1) y <> (0, 0, 0, 0)) /\
    (exists x, x0 <= x < x1 /\ getpixel im x y0 <> (0, 0, 0, 0)) /\
    (exists x, x0 <= x < x1 /\ getpixel im x (y1 - 1) <> (0, 0, 0, 0)).

(** ** Traces *)

(** The [img.save] calls of a trace. *)
Definition saves (t : list event) : list (string * image) :=
  flat_map (fun e => match e with SaveImage path img => [(path, img)] | _ => [] end) t.

(** The [Image.open] calls of a trace. *)
Definition opens (t : list event) : list string :=
  flat_map (fun e => match e with OpenImage path => [path] | _ => [] end) t.

(** ** Samples *)

(** A 3 x 2 logo on a near-black background: content in the middle
    column and the lower right corner. *)
Definition sample_logo : image :=
  {| width := 3; height := 2;
     pixels := [ (3, 4, 5, 255); (200, 10, 10, 255); (0, 0, 0, 255);
                 (14, 14, 14, 9); (15, 0, 0, 7);     (1, 2, 250, 0) ] |}.

(** A 2 x 2 buffer that is dark all over. *)
Definition sample_dark : image :=
  {| width := 2; height := 2;
     pixels := [ (0, 0, 0, 255); (14, 14, 14, 255); (3, 2, 1, 0); (14, 0, 7, 80) ] |}.

(** A 2 x 1 buffer without a dark pixel whose left pixel is fully
    transparent white. *)
Definition sample_halo : image :=
  {| width := 2; height := 1;
     pixels := [ (255, 255, 255, 0); (200, 30, 30, 255) ] |}.

(** A 2 x 2 buffer without a dark pixel and opaque all over. *)
Definition sample_bright : image :=
  {| width := 2; height := 2;
     pixels := [ (15, 0, 0, 255); (0, 15, 0, 255); (0, 0, 15, 1); (255, 255, 255, 255) ] |}.


(** A 2 x 1 three-channel file. *)
Definition sample_rgb : decoded :=
  {| d_width := 2; d_height := 1;
     d_raster := RGB None [ (0, 0, 0); (250, 128, 3) ] |}.

(** A disk with one logo and one text file; files can be created
    anywhere but under /missing/, a directory that does not exist. *)
Definition sample_world : world :=
  {| disk := <["logo.png" := ImageFile (decoded_of sample_logo)]>
               (<["notes.txt" := OtherFile]> ∅);
     creatable := fun path => negb (String.prefix "/missing/" path);
     trace := [] |}.

(** A 2 x 1 buffer that is fully transparent: one bright pixel, one
    dark. *)
Definition sample_ghost : image :=
  {| width := 2; height := 1;
     pixels := [ (255, 255, 255, 0); (1, 2, 3, 0) ] |}.

(** A buffer of three rows of width zero. *)
Definition sample_empty : image :=
  {| width := 0; height := 3; pixels := [] |}.

(** ** Worlds *)

(** Every image file of the disk decodes to a well-formed raster. *)
Definition wf_disk (w : world) : Prop :=
  forall path d, disk w !! path = Some (ImageFile d) -> wf_decoded d.

(** * Properties *)

(** ** Ranges and row-major indexing *)

Lemma in_range (x n : Z) : In x (range n) <-> 0 <= x < n.
Proof.
  unfold range. rewrite in_map_iff. split.
  - intros (k & <- & Hk). apply in_seq in Hk. lia.
  - intros Hx. exists (Z.to_nat x). split; [lia|]. apply in_seq. lia.
Qed.

Lemma length_range (n : Z) : length (range n) = Z.to_nat n.
Proof. unfold range. now rewrite length_map, length_seq. Qed.

Lemma range_succ (n : Z) : 0 <= n -> range (n + 1) = range n ++ [n].
Proof.
  intros Hn. unfold range.
  replace (Z.to_nat (n + 1)) with (S (Z.to_nat n)) by lia.
  rewrite seq_S, map_app. simpl. now rewrite Z2Nat.id.
Qed.

(** The entry at row [y], column [x] of a grid laid out row by row. *)
Lemma nth_rows {A} (f : nat -> nat -> A) (d : A) (w : nat) :
  forall (h s x y : nat), (x < w)%nat -> (y < h)%nat ->
    nth (y * w + x) (flat_map (fun r => map (f r) (seq 0 w)) (seq s h)) d
    = f (s + y)%nat x.
Proof.
  induction h as [|h IH]; intros s x y Hx Hy; [lia|].
  cbn [seq flat_map].
  destruct y as [|y].
  - rewrite app_nth1 by (rewrite length_map, length_seq; lia).
    rewrite (nth_indep _ d (f s 0%nat)) by (rewrite length_map, length_seq; lia).
    rewrite map_nth, seq_nth by lia. now rewrite Nat.add_0_r.
  - rewrite app_nth2 by (rewrite length_map, length_seq; lia).
    rewrite length_map, length_seq.
    replace (S y * w + x - w)%nat with (y * w + x)%nat by lia.
    rewrite IH by lia. f_equal. lia.
Qed.

Lemma length_rows {A} (f : nat -> nat -> A) (w : nat) :
  forall (h s : nat),
    length (flat_map (fun r => map (f r) (seq 0 w)) (seq s h)) = (h * w)%nat.
Proof.
  induction h as [|h IH]; intros s; [reflexivity|].
  cbn [seq flat_map]. rewrite length_app, length_map, length_seq, IH. lia.
Qed.

(** Reading a list back row by row gives the list. *)
Lemma rows_of_list {A} (l : list A) (d : A) (w h : nat) :
  length l = (h * w)%nat ->
  flat_map (fun r => map (fun c => nth (r * w + c) l d) (seq 0 w)) (seq 0 h) = l.
Proof.
  intros Hl. apply nth_ext with (d := d) (d' := d).
  - now rewrite length_rows.
  - intros i Hi. rewrite length_rows in Hi.
    assert (Hw : (0 < w)%nat) by (destruct w; lia).
    pose proof (Nat.div_mod_eq i w) as Hdm.
    pose proof (Nat.mod_upper_bound i w ltac:(lia)) as Hm.
    assert (Hq : (i / w < h)%nat) by (apply Nat.Div0.div_lt_upper_bound; lia).
    replace i with ((i / w) * w + i mod w)%nat at 1 by lia.
    rewrite (nth_rows (fun r c => nth (r * w + c) l d)) by assumption.
    f_equal. lia.
Qed.

(** ** The threshold step *)

Lemma threshold_loop_acc (datas acc : list pixel) :
  fold_left loop_body datas acc = acc ++ map threshold_pixel datas.
Proof.
  revert acc. induction datas as [|item datas IH]; intros acc; simpl.
  - now rewrite app_nil_r.
  - rewrite IH. unfold loop_body, threshold_pixel, transparent_black.
    destruct (is_background item); now rewrite <- app_assoc.
Qed.

Lemma threshold_loop_map (datas : list pixel) :
  threshold_loop datas = map threshold_pixel datas.
Proof. unfold threshold_loop. now rewrite threshold_loop_acc. Qed.

Lemma clip8_byte (v : Z) : is_byte v -> clip8 v = v.
Proof.
  unfold is_byte, clip8. intros Hv.
  destruct (Z.ltb_spec v 0); [lia|]. destruct (Z.ltb_spec 255 v); [lia|]. reflexivity.
Qed.

Lemma getink_byte (p : pixel) : byte_pixel p -> getink p = p.
Proof.
  destruct p as [[[r g] b] a]. unfold byte_pixel. simpl.
  intros (Hr & Hg & Hb & Ha). now rewrite !clip8_byte.
Qed.

Lemma byte_transparent_black : byte_pixel transparent_black.
Proof. unfold byte_pixel, is_byte. simpl. lia. Qed.

Lemma threshold_pixel_byte (p : pixel) : byte_pixel p -> byte_pixel (threshold_pixel p).
Proof.
  intros Hp. unfold threshold_pixel.
  destruct (is_background p); [apply byte_transparent_black | assumption].
Qed.

Lemma threshold_pixel_idem (p : pixel) :
  threshold_pixel (threshold_pixel p) = threshold_pixel p.
Proof.
  unfold threshold_pixel. destruct (is_background p) eqn:Hp; [reflexivity|].
  now rewrite Hp.
Qed.

Lemma map_getink_bytes (l : list pixel) : Forall byte_pixel l -> map getink l = l.
Proof.
  induction 1 as [|p l Hp _ IH]; simpl; [reflexivity|].
  now rewrite getink_byte, IH.
Qed.

Lemma threshold_step_ok (img : image) :
  wf img -> threshold_step img = Ok (thresholded img).
Proof.
  intros [Hw Hh Hlen Hby].
  unfold threshold_step, putdata, getdata. rewrite threshold_loop_map, length_map.
  destruct (Z.ltb_spec (width img * height img) (Z.of_nat (length (pixels img)))); [lia|].
  unfold thresholded. do 2 f_equal.
  rewrite drop_all, app_nil_r. apply map_getink_bytes.
  apply Forall_map. eapply Forall_impl; [exact Hby|]. apply threshold_pixel_byte.
Qed.

Lemma thresholded_wf (img : image) : wf img -> wf (thresholded img).
Proof.
  intros [Hw Hh Hlen Hby]. split; simpl; try assumption.
  - now rewrite length_map.
  - apply Forall_map. eapply Forall_impl; [exact Hby|]. apply threshold_pixel_byte.
Qed.

(** ** The bounding box scan *)

Section Scan.

Variable hit : Z -> Z -> bool.
Variable xsize : Z.

(** The inner loop, over any list of columns. *)
Lemma scan_pixels_spec (y : Z) (xs : list Z) :
  forall (hd : bool) (b0 b2 : Z),
  exists hd' b0' b2',
    fold_left (scan_pixel hit y) xs (hd, b0, b2) = (hd', b0', b2') /\
    (hd' = true <-> hd = true \/ exists x, In x xs /\ hit x y = true) /\
    b0' <= b0 /\ b2 <= b2' /\
    (forall x, In x xs -> hit x y = true -> b0' <= x < b2') /\
    (b0' = b0 \/ In b0' xs /\ hit b0' y = true) /\
    (b2' = b2 \/ In (b2' - 1) xs /\ hit (b2' - 1) y = true).
Proof.
  induction xs as [|x xs IH]; intros hd b0 b2.
  - exists hd, b0, b2. simpl.
    split; [reflexivity|]. split; [|repeat split; try lia; tauto].
    split; [tauto | intros [H|(x & [] & _)]; exact H].
  - cbn [fold_left]. unfold scan_pixel at 2.
    destruct (hit x y) eqn:Hx.
    + set (l := if x <? b0 then x else b0).
      set (r := if x >=? b2 then x + 1 else b2).
      assert (Hl0 : l <= b0 /\ l <= x /\ (l = b0 \/ l = x))
        by (subst l; destruct (Z.ltb_spec x b0); lia).
      assert (Hr0 : b2 <= r /\ x < r /\ (r = b2 \/ r - 1 = x))
        by (subst r; destruct (Z.geb_spec x b2); lia).
      clearbody l r.
      destruct (IH true l r)
        as (hd' & b0' & b2' & Hf & Hhd & Hb0 & Hb2 & Hin & Hl & Hr).
      exists hd', b0', b2'. split; [exact Hf|].
      split; [|split; [lia|]; split; [lia|]; split; [|split]].
      * split; [intros _ | intros _; apply Hhd; now left].
        right. exists x. split; [now left | exact Hx].
      * intros x' [<-|Hx'] Hh; [lia | now apply Hin].
      * destruct Hl as [->|[Hl1 Hl2]]; [|right; split; [now right | exact Hl2]].
        destruct Hl0 as (_ & _ & [->| ->]); [now left|].
        right. split; [now left | exact Hx].
      * destruct Hr as [->|[Hr1 Hr2]]; [|right; split; [now right | exact Hr2]].
        destruct Hr0 as (_ & _ & [->| ->]); [now left|].
        right. split; [now left | exact Hx].
    + destruct (IH hd b0 b2)
        as (hd' & b0' & b2' & Hf & Hhd & Hb0 & Hb2 & Hin & Hl & Hr).
      exists hd', b0', b2'. split; [exact Hf|].
      split; [|split; [lia|]; split; [lia|]; split; [|split]].
      * split.
        -- intros H. apply Hhd in H as [H|(x' & Hx' & Hh)]; [now left|].
           right. exists x'. split; [now right | exact Hh].
        -- intros [H|(x' & [<-|Hx'] & Hh)]; apply Hhd; [now left | congruence |].
           right. exists x'. now split.
      * intros x' [<-|Hx'] Hh; [congruence | now apply Hin].
      * destruct Hl as [->|[Hl1 Hl2]]; [now left | right; split; [now right | exact Hl2]].
      * destruct Hr as [->|[Hr1 Hr2]]; [now left | right; split; [now right | exact Hr2]].
Qed.

Lemma scan_row_step (n : Z) (b : Z * Z * Z * Z) :
  0 <= n -> scanned hit xsize n b -> scanned hit xsize (n + 1) (scan_row hit xsize b n).
Proof.
  intros Hn Hb. destruct b as [[[b0 b1] b2] b3]. unfold scan_row.
  destruct (scan_pixels_spec n (range xsize) false b0 b2)
    as (hd & l & r & -> & Hhd & Hl0 & Hr0 & Hin & Hl & Hr).
  setoid_rewrite in_range in Hhd. setoid_rewrite in_range in Hin.
  rewrite in_range in Hl, Hr.
  destruct hd.
  - (* the row has data *)
    destruct Hhd as [Hhd _].
    destruct (Hhd eq_refl) as [?|(x0 & Hx0 & Hh0)]; [discriminate|].
    pose proof (Hin x0 Hx0 Hh0) as Hlr.
    destruct Hb as [[Heq Hblank]|Ht].
    + injection Heq as -> -> -> ->. right. simpl.
      destruct Hl as [->|[Hl1 Hl2]]; [lia|].
      destruct Hr as [->|[Hr1 Hr2]]; [lia|].
      split; [lia|]. split; [lia|]. split; [|split; [|split; [|split]]].
      * intros x y Hx Hy Hh. destruct (Z.eq_dec y n) as [->|].
        -- split; [now apply Hin | lia].
        -- rewrite Hblank in Hh by lia. discriminate.
      * exists n. split; [lia | exact Hl2].
      * exists n. split; [lia | exact Hr2].
      * exists x0. split; [lia | exact Hh0].
      * exists x0. split; [lia|]. now replace (n + 1 - 1) with n by lia.
    + right. destruct Ht as (Hx & Hy & Hall & (yl & Hyl & Hhl) & (yr & Hyr & Hhr)
                               & (xt & Hxt & Hht) & _).
      destruct (Z.ltb_spec b1 0); [lia|].
      assert (Hl' : 0 <= l) by (destruct Hl as [->|[? ?]]; lia).
      assert (Hr' : r <= xsize) by (destruct Hr as [->|[? ?]]; lia).
      assert (Hbox : forall x y, 0 <= x < xsize -> 0 <= y < n + 1 ->
                hit x y = true -> l <= x < r /\ b1 <= y < n + 1).
      { intros x y Hx' Hy' Hh. destruct (Z.eq_dec y n) as [->|].
        - split; [now apply Hin | lia].
        - destruct (Hall x y Hx' ltac:(lia) Hh). lia. }
      split; [lia|]. split; [lia|]. split; [exact Hbox|].
      split; [|split; [|split]].
      * destruct Hl as [->|[Hl1 Hl2]];
          [exists yl | exists n]; (split; [lia | assumption]).
      * destruct Hr as [->|[Hr1 Hr2]];
          [exists yr | exists n]; (split; [lia | assumption]).
      * exists xt. split; [lia | exact Hht].
      * exists x0. split; [lia|]. now replace (n + 1 - 1) with n by lia.
  - (* the row has none *)
    assert (Hrow : forall x, 0 <= x < xsize -> hit x n = false).
    { intros x Hx. destruct (hit x n) eqn:Hh; [|reflexivity].
      destruct Hhd as [_ Hhd]. symmetry. apply Hhd. right. now exists x. }
    assert (l = b0) as -> by (destruct Hl as [->|[Hl1 Hl2]];
                               [reflexivity | rewrite Hrow in Hl2 by lia; discriminate]).
    assert (r = b2) as -> by (destruct Hr as [->|[Hr1 Hr2]];
                               [reflexivity | rewrite Hrow in Hr2 by lia; discriminate]).
    destruct Hb as [[Heq Hblank]|Ht]; [left | right].
    + split; [exact Heq|]. intros x y Hx Hy.
      destruct (Z.eq_dec y n) as [->|]; [now apply Hrow | apply Hblank; lia].
    + destruct Ht as (Hx & Hy & Hall & Hleft & Hright & Htop & Hbot).
      split; [lia|]. split; [lia|]. split; [|tauto].
      intros x y Hx' Hy' Hh. destruct (Z.eq_dec y n) as [->|].
      * rewrite Hrow in Hh by lia. discriminate.
      * apply Hall; [lia | lia | exact Hh].
Qed.

Lemma scan_rows (k : nat) :
  scanned hit xsize (Z.of_nat k)
    (fold_left (scan_row hit xsize) (range (Z.of_nat k)) (xsize, -1, 0, 0)).
Proof.
  induction k as [|k IH].
  - left. split; [reflexivity|]. intros x y _ Hy. simpl in Hy. lia.
  - replace (Z.of_nat (S k)) with (Z.of_nat k + 1) by lia.
    rewrite range_succ by lia. rewrite fold_left_app. cbn [fold_left].
    apply scan_row_step; [lia | exact IH].
Qed.

(** ImagingGetBBox answers None exactly on a blank grid, and the
    tight box otherwise. *)
Lemma scan_spec (ysize : Z) :
  0 <= ysize ->
  match scan hit xsize ysize with
  | None => blank hit xsize ysize
  | Some b => tight hit xsize ysize b
  end.
Proof.
  intros Hy. unfold scan.
  pose proof (scan_rows (Z.to_nat ysize)) as H.
  rewrite Z2Nat.id in H by exact Hy.
  destruct (fold_left _ _ _) as [[[b0 b1] b2] b3].
  destruct H as [[Heq Hblank]|Ht].
  - injection Heq as -> -> -> ->. exact Hblank.
  - destruct (Z.ltb_spec b1 0); [|exact Ht].
    destruct Ht as (_ & ? & _). lia.
Qed.

Lemma tight_not_blank (n : Z) (b : Z * Z * Z * Z) : tight hit xsize n b -> ~ blank hit xsize n.
Proof.
  destruct b as [[[b0 b1] b2] b3].
  intros (Hx & Hy & _ & (y & Hyr & Hh) & _) Hblank.
  rewrite Hblank in Hh by lia. discriminate.
Qed.

(** The tight box is unique. *)
Lemma tight_unique (n : Z) (b b' : Z * Z * Z * Z) :
  tight hit xsize n b -> tight hit xsize n b' -> b = b'.
Proof.
  destruct b as [[[b0 b1] b2] b3], b' as [[[c0 c1] c2] c3].
  intros (Hx & Hy & Hall & (yl & Hyl & Hhl) & (yr & Hyr & Hhr)
            & (xt & Hxt & Hht) & (xb & Hxb & Hhb))
         (Hx' & Hy' & Hall' & (yl' & Hyl' & Hhl') & (yr' & Hyr' & Hhr')
            & (xt' & Hxt' & Hht') & (xb' & Hxb' & Hhb')).
  pose proof (Hall' b0 yl ltac:(lia) ltac:(lia) Hhl).
  pose proof (Hall' (b2 - 1) yr ltac:(lia) ltac:(lia) Hhr).
  pose proof (Hall' xt b1 ltac:(lia) ltac:(lia) Hht).
  pose proof (Hall' xb (b3 - 1) ltac:(lia) ltac:(lia) Hhb).
  pose proof (Hall c0 yl' ltac:(lia) ltac:(lia) Hhl').
  pose proof (Hall (c2 - 1) yr' ltac:(lia) ltac:(lia) Hhr').
  pose proof (Hall xt' c1 ltac:(lia) ltac:(lia) Hht').
  pose proof (Hall xb' (c3 - 1) ltac:(lia) ltac:(lia) Hhb').
  repeat f_equal; lia.
Qed.

End Scan.

(** ** Cropping *)

(** The pixel list [crop] builds, over naturals. *)
Lemma crop_pixels_nat (g : Z -> Z -> pixel) (w h : Z) :
  flat_map (fun y => map (fun x => g x y) (range w)) (range h)
  = flat_map (fun r => map (fun c => g (Z.of_nat c) (Z.of_nat r))
                           (seq 0 (Z.to_nat w)))
             (seq 0 (Z.to_nat h)).
Proof.
  unfold range. rewrite flat_map_concat_map, map_map, <- flat_map_concat_map.
  apply flat_map_ext. intros r. now rewrite map_map.
Qed.

Lemma crop_inv (im c : image) (x0 y0 x1 y1 : Z) :
  crop im (x0, y0, x1, y1) = Ok c ->
  x0 <= x1 /\ y0 <= y1 /\ width c = x1 - x0 /\ height c = y1 - y0 /\
  pixels c = flat_map (fun y => map (fun x => getpixel_padded im (x + x0) (y + y0))
                                    (range (x1 - x0)))
                      (range (y1 - y0)).
Proof.
  unfold crop.
  destruct (Z.ltb_spec x1 x0); [discriminate|].
  destruct (Z.ltb_spec y1 y0); [discriminate|].
  intros [= <-]. simpl. repeat split; lia.
Qed.

Lemma crop_getpixel (im c : image) (x0 y0 x1 y1 x y : Z) :
  crop im (x0, y0, x1, y1) = Ok c ->
  0 <= x < x1 - x0 -> 0 <= y < y1 - y0 ->
  getpixel c x y = getpixel_padded im (x + x0) (y + y0).
Proof.
  intros Hc Hx Hy.
  destruct (crop_inv _ _ _ _ _ _ Hc) as (Hx01 & Hy01 & Hw & Hh & Hpx).
  unfold getpixel at 1. rewrite Hpx, Hw.
  rewrite (crop_pixels_nat (fun x y => getpixel_padded im (x + x0) (y + y0))).
  replace (Z.to_nat (y * (x1 - x0) + x))
    with (Z.to_nat y * Z.to_nat (x1 - x0) + Z.to_nat x)%nat by nia.
  rewrite (nth_rows (fun r c => getpixel_padded im (Z.of_nat c + x0) (Z.of_nat r + y0)))
    by lia.
  simpl. now rewrite !Z2Nat.id by lia.
Qed.

Lemma getpixel_padded_Forall (P : pixel -> Prop) (im : image) (x y : Z) :
  P transparent_black -> Forall P (pixels im) -> P (getpixel_padded im x y).
Proof.
  intros H0 Hall. unfold getpixel_padded, getpixel.
  destruct (_ && _); [|exact H0].
  destruct (nth_in_or_default (Z.to_nat (y * width im + x)) (pixels im) transparent_black)
    as [Hin| ->]; [|exact H0].
  rewrite List.Forall_forall in Hall. now apply Hall.
Qed.

Lemma crop_Forall (P : pixel -> Prop) (im c : image) (box : Z * Z * Z * Z) :
  P transparent_black -> Forall P (pixels im) -> crop im box = Ok c ->
  Forall P (pixels c).
Proof.
  intros H0 Hall Hc. destruct box as [[[x0 y0] x1] y1].
  destruct (crop_inv _ _ _ _ _ _ Hc) as (_ & _ & _ & _ & ->).
  apply List.Forall_forall. intros p Hp.
  apply in_flat_map in Hp as (y & _ & Hp).
  apply in_map_iff in Hp as (x & <- & _).
  now apply getpixel_padded_Forall.
Qed.

Lemma crop_wf (im c : image) (box : Z * Z * Z * Z) :
  wf im -> crop im box = Ok c -> wf c.
Proof.
  intros Hwf Hc. pose proof (crop_Forall byte_pixel _ _ _ byte_transparent_black
                               (wf_bytes _ Hwf) Hc) as Hby.
  destruct box as [[[x0 y0] x1] y1].
  destruct (crop_inv _ _ _ _ _ _ Hc) as (Hx & Hy & Hw & Hh & Hpx).
  split; [lia | lia | | exact Hby].
  rewrite Hpx, Hw, Hh.
  rewrite (crop_pixels_nat (fun x y => getpixel_padded im (x + x0) (y + y0))).
  rewrite (length_rows (fun r c => getpixel_padded im (Z.of_nat c + x0) (Z.of_nat r + y0))).
  nia.
Qed.

(** Cropping to the whole image changes nothing. *)
Lemma crop_full (im : image) :
  wf im -> crop im (0, 0, width im, height im) = Ok im.
Proof.
  intros [Hw Hh Hlen Hby]. unfold crop.
  destruct (Z.ltb_spec (width im) 0); [lia|].
  destruct (Z.ltb_spec (height im) 0); [lia|].
  destruct im as [w h px]. simpl in *. f_equal.
  rewrite !Z.sub_0_r. f_equal.
  rewrite (crop_pixels_nat (fun x y => getpixel_padded (Image w h px) (x + 0) (y + 0))).
  etransitivity; [|apply (rows_of_list px transparent_black (Z.to_nat w) (Z.to_nat h)); nia].
  rewrite !flat_map_concat_map. f_equal.
  apply map_ext_in. intros r Hr. apply map_ext_in. intros c Hc.
  apply in_seq in Hr, Hc.
  unfold getpixel_padded, getpixel. simpl.
  rewrite !Z.add_0_r.
  destruct (Z.leb_spec 0 (Z.of_nat c)); [|lia].
  destruct (Z.ltb_spec (Z.of_nat c) w); [|lia].
  destruct (Z.leb_spec 0 (Z.of_nat r)); [|lia].
  destruct (Z.ltb_spec (Z.of_nat r) h); [|lia].
  simpl. f_equal. nia.
Qed.

(** ** The crop step *)

Lemma opaque_at_alpha (im : image) (x y : Z) :
  opaque_at im x y = true <-> alpha (getpixel im x y) <> 0.
Proof.
  unfold opaque_at, masked. destruct (Z.eqb_spec (alpha (getpixel im x y)) 0); simpl.
  - split; [discriminate | contradiction].
  - split; [intros _; assumption | reflexivity].
Qed.

Lemma getbbox_spec (im : image) :
  wf im ->
  match getbbox im with
  | None => blank (opaque_at im) (width im) (height im)
  | Some b => tight (opaque_at im) (width im) (height im) b
  end.
Proof.
  intros Hwf. unfold getbbox, getbbox_with.
  apply (scan_spec (opaque_at im) (width im)), (wf_height _ Hwf).
Qed.

(** With [alpha_only=False] the box would be the one of the pixels
    that differ from (0, 0, 0, 0) in any channel. *)
Lemma getbbox_all_channels_spec (im : image) :
  wf im ->
  match getbbox_with false im with
  | None =>
      forall x y, 0 <= x < width im -> 0 <= y < height im ->
        getpixel im x y = (0, 0, 0, 0)
  | Some b =>
      tight (fun x y => negb (bool_decide (getpixel im x y = (0, 0, 0, 0))))
        (width im) (height im) b
  end.
Proof.
  intros Hwf. unfold getbbox_with.
  assert (Hm : forall p, masked false p = negb (bool_decide (p = (0, 0, 0, 0)))).
  { intros [[[r g] b] a]. unfold masked. simpl.
    destruct (Z.eqb_spec r 0), (Z.eqb_spec g 0), (Z.eqb_spec b 0), (Z.eqb_spec a 0);
      simpl; subst; first [ now rewrite bool_decide_eq_true_2
                          | rewrite bool_decide_eq_false_2; [reflexivity | congruence] ]. }
  pose proof (scan_spec (fun x y => masked false (getpixel im x y)) (width im)
                (height im) (wf_height _ Hwf)) as Hspec.
  destruct (scan _ _ _) as [[[[b0 b1] b2] b3]|].
  - destruct Hspec as (Hx & Hy & Hall & Hl & Hr & Ht & Hb).
    setoid_rewrite Hm in Hall. setoid_rewrite Hm in Hl. setoid_rewrite Hm in Hr.
    setoid_rewrite Hm in Ht. setoid_rewrite Hm in Hb.
    repeat split; try lia; try assumption; apply (Hall x y); assumption.
  - intros x y Hx Hy. specialize (Hspec x y Hx Hy). cbv beta in Hspec.
    rewrite Hm in Hspec.
    apply negb_false_iff, bool_decide_eq_true in Hspec. exact Hspec.
Qed.

Lemma getpixel_padded_inside (im : image) (x y : Z) :
  0 <= x < width im -> 0 <= y < height im ->
  getpixel_padded im x y = getpixel im x y.
Proof.
  intros Hx Hy. unfold getpixel_padded.
  destruct (Z.leb_spec 0 x); [|lia]. destruct (Z.ltb_spec x (width im)); [|lia].
  destruct (Z.leb_spec 0 y); [|lia]. destruct (Z.ltb_spec y (height im)); [|lia].
  reflexivity.
Qed.

(** On a well-formed image the crop step never raises: it keeps the
    image when there is no box, and cuts the tight box out otherwise. *)
Lemma crop_step_cases (im : image) :
  wf im ->
  (getbbox im = None /\ blank (opaque_at im) (width im) (height im)
     /\ crop_step im = Ok im)
  \/ (exists b c, getbbox im = Some b
        /\ tight (opaque_at im) (width im) (height im) b
        /\ crop im b = Ok c /\ crop_step im = Ok c).
Proof.
  intros Hwf. pose proof (getbbox_spec im Hwf) as Hspec.
  unfold crop_step. destruct (getbbox im) as [b|]; [right | left; tauto].
  destruct b as [[[x0 y0] x1] y1].
  assert (Hc : exists c, crop im (x0, y0, x1, y1) = Ok c).
  { destruct Hspec as (Hx & Hy & _). unfold crop.
    destruct (Z.ltb_spec x1 x0); [lia|]. destruct (Z.ltb_spec y1 y0); [lia|]. eauto. }
  destruct Hc as (c & Hc). exists (x0, y0, x1, y1), c. tauto.
Qed.

(** The box of an image that was cropped to its box is the whole image. *)
Lemma getbbox_cropped (im c : image) (b : Z * Z * Z * Z) :
  wf im -> getbbox im = Some b -> crop im b = Ok c ->
  getbbox c = Some (0, 0, width c, height c).
Proof.
  intros Hwf Hb Hc. pose proof (crop_wf _ _ _ Hwf Hc) as Hwfc.
  pose proof (getbbox_spec im Hwf) as Ht. rewrite Hb in Ht.
  destruct b as [[[x0 y0] x1] y1].
  destruct (crop_inv _ _ _ _ _ _ Hc) as (_ & _ & Hw & Hh & _).
  destruct Ht as (Hx & Hy & _ & (yl & Hyl & Hhl) & (yr & Hyr & Hhr)
                    & (xt & Hxt & Hht) & (xb & Hxb & Hhb)).
  assert (Hshift : forall x y, x0 <= x < x1 -> y0 <= y < y1 ->
            opaque_at c (x - x0) (y - y0) = opaque_at im x y).
  { intros x y Hx' Hy'. unfold opaque_at.
    rewrite (crop_getpixel _ _ _ _ _ _ _ _ Hc) by lia.
    rewrite getpixel_padded_inside by lia. do 2 f_equal; lia. }
  assert (Hfull : tight (opaque_at c) (width c) (height c) (0, 0, width c, height c)).
  { split; [lia|]. split; [lia|]. split; [intros; lia|].
    split; [|split; [|split]].
    - exists (yl - y0). split; [lia|].
      replace 0 with (x0 - x0) by lia. now rewrite Hshift by lia.
    - exists (yr - y0). split; [lia|].
      replace (width c - 1) with (x1 - 1 - x0) by lia. now rewrite Hshift by lia.
    - exists (xt - x0). split; [lia|].
      replace 0 with (y0 - y0) by lia. now rewrite Hshift by lia.
    - exists (xb - x0). split; [lia|].
      replace (height c - 1) with (y1 - 1 - y0) by lia. now rewrite Hshift by lia. }
  pose proof (getbbox_spec c Hwfc) as Hspec.
  destruct (getbbox c) as [b'|].
  - f_equal. eapply tight_unique; eassumption.
  - exfalso. eapply tight_not_blank; eassumption.
Qed.

Lemma process_thresholded (img : image) :
  wf img -> process img = crop_step (thresholded img).
Proof. intros Hwf. unfold process. now rewrite threshold_step_ok. Qed.

Lemma thresholded_fixed (img : image) :
  Forall (fun p => threshold_pixel p = p) (pixels img) -> thresholded img = img.
Proof.
  intros Hfix. destruct img as [w h px]. unfold thresholded. simpl in *. f_equal.
  induction Hfix as [|p l Hp _ IH]; simpl; [reflexivity|]. now rewrite Hp, IH.
Qed.

Lemma thresholded_pixels_fixed (img : image) :
  Forall (fun p => threshold_pixel p = p) (pixels (thresholded img)).
Proof.
  simpl. apply List.Forall_forall. intros p Hp.
  apply in_map_iff in Hp as (q & <- & _). apply threshold_pixel_idem.
Qed.

(** ** Tactics for the samples *)

Ltac solve_wf :=
  split; simpl;
  [ lia | lia | reflexivity
  | repeat (constructor; [unfold byte_pixel, is_byte; simpl; lia|]); constructor ].

(** ** The thresholder *)

(** C1. On every RGBA buffer the threshold step succeeds and keeps the
    size; a pixel whose red, green and blue are all below 15 becomes
    (0, 0, 0, 0) whatever its alpha, any other pixel is left exactly as
    it was; so every pixel of the result is (0, 0, 0, 0) or its input. *)
Theorem threshold_contract (img : image) :
  wf img ->
  exists out,
    threshold_step img = Ok out /\
    width out = width img /\ height out = height img /\
    length (pixels out) = length (pixels img) /\
    forall (i : nat) (p : pixel), nth_error (pixels img) i = Some p ->
      (red p < 15 /\ green p < 15 /\ blue p < 15 ->
         nth_error (pixels out) i = Some (0, 0, 0, 0)) /\
      (15 <= red p \/ 15 <= green p \/ 15 <= blue p ->
         nth_error (pixels out) i = Some p) /\
      (nth_error (pixels out) i = Some (0, 0, 0, 0)
       \/ nth_error (pixels out) i = Some p).
Proof.
  intros Hwf. exists (thresholded img).
  split; [now apply threshold_step_ok|]. simpl.
  split; [reflexivity|]. split; [reflexivity|]. split; [apply length_map|].
  intros i p Hp. rewrite nth_error_map, Hp. simpl.
  unfold threshold_pixel, is_background, threshold, transparent_black.
  destruct (Z.ltb_spec (red p) 15), (Z.ltb_spec (green p) 15),
    (Z.ltb_spec (blue p) 15); simpl;
    (split; [intros; first [reflexivity | lia]
            |split; [intros; first [reflexivity | lia] | tauto]]).
Qed.

Lemma threshold_contract_witness :
  wf sample_logo /\
  exists out,
    threshold_step sample_logo = Ok out /\
    width out = width sample_logo /\ height out = height sample_logo /\
    length (pixels out) = length (pixels sample_logo) /\
    forall (i : nat) (p : pixel), nth_error (pixels sample_logo) i = Some p ->
      (red p < 15 /\ green p < 15 /\ blue p < 15 ->
         nth_error (pixels out) i = Some (0, 0, 0, 0)) /\
      (15 <= red p \/ 15 <= green p \/ 15 <= blue p ->
         nth_error (pixels out) i = Some p) /\
      (nth_error (pixels out) i = Some (0, 0, 0, 0)
       \/ nth_error (pixels out) i = Some p).
Proof. split; [solve_wf | apply (threshold_contract sample_logo); solve_wf]. Defined.

Example threshold_sample_logo :
  threshold_step sample_logo
  = Ok {| width := 3; height := 2;
          pixels := [ (0, 0, 0, 0); (200, 10, 10, 255); (0, 0, 0, 0);
                      (0, 0, 0, 0); (15, 0, 0, 7);      (1, 2, 250, 0) ] |}.
Proof. reflexivity. Qed.

Example process_sample_logo :
  process sample_logo
  = Ok {| width := 1; height := 2;
          pixels := [ (200, 10, 10, 255); (15, 0, 0, 7) ] |}.
Proof. reflexivity. Qed.

(** ** The cropper *)

Lemma blank_alpha (im : image) :
  blank (opaque_at im) (width im) (height im) <->
  forall x y, 0 <= x < width im -> 0 <= y < height im -> alpha (getpixel im x y) = 0.
Proof.
  unfold blank. split; intros H x y Hx Hy.
  - specialize (H x y Hx Hy). unfold opaque_at, masked in H.
    destruct (Z.eqb_spec (alpha (getpixel im x y)) 0); [assumption | discriminate].
  - unfold opaque_at, masked. now rewrite (H x y Hx Hy).
Qed.

(** C2, as stated, fails: [sample_halo] is a thresholded buffer with a
    pixel other than (0, 0, 0, 0) at each position, yet the crop step
    cuts the left one, (255, 255, 255, 0), away: its alpha is zero, and
    [getbbox()] looks at alpha alone. *)
Lemma crop_nonzero_box_counterexample :
  wf sample_halo /\
  threshold_step sample_halo = Ok sample_halo /\
  getpixel sample_halo 0 0 <> (0, 0, 0, 0) /\
  getbbox sample_halo = Some (1, 0, 2, 1) /\
  exists out,
    crop_step sample_halo = Ok out /\
    out = {| width := 1; height := 1; pixels := [ (200, 30, 30, 255) ] |} /\
    ~ crops_to_nonzero_box sample_halo out.
Proof.
  split; [solve_wf|]. split; [reflexivity|]. split; [discriminate|].
  split; [reflexivity|]. eexists. split; [reflexivity|]. split; [reflexivity|].
  intros (x0 & y0 & x1 & y1 & Hc & Hout & _).
  apply crop_inv in Hc as (_ & _ & Hw & _). simpl in Hw.
  assert (H0 : x0 <= 0 < x1 /\ y0 <= 0 < y1).
  { destruct (Z_le_gt_dec x0 0), (Z_lt_ge_dec 0 x1), (Z_le_gt_dec y0 0),
      (Z_lt_ge_dec 0 y1); try lia;
      exfalso; (assert (getpixel sample_halo 0 0 = (0, 0, 0, 0)) as Hz
                  by (apply Hout; simpl; lia)); discriminate Hz. }
  assert (H1 : x0 <= 1 < x1 /\ y0 <= 0 < y1).
  { destruct (Z_le_gt_dec x0 1), (Z_lt_ge_dec 1 x1), (Z_le_gt_dec y0 0),
      (Z_lt_ge_dec 0 y1); try lia;
      exfalso; (assert (getpixel sample_halo 1 0 = (0, 0, 0, 0)) as Hz
                  by (apply Hout; simpl; lia)); discriminate Hz. }
  lia.
Qed.

(** C2, amended.  Whenever the buffer holds a pixel whose alpha is not
    zero, the crop step cuts out the minimal rectangle such that every
    pixel outside of it has alpha zero and each of its four sides holds
    a pixel of non-zero alpha: content is a pixel of non-zero alpha,
    whatever its colour channels are. *)
Theorem crop_to_opaque_box (img : image) :
  wf img ->
  (exists x y, 0 <= x < width img /\ 0 <= y < height img
               /\ alpha (getpixel img x y) <> 0) ->
  exists x0 y0 x1 y1 out,
    getbbox img = Some (x0, y0, x1, y1) /\ crop_step img = Ok out /\
    (0 <= x0 < x1 /\ x1 <= width img) /\ (0 <= y0 < y1 /\ y1 <= height img) /\
    width out = x1 - x0 /\ height out = y1 - y0 /\
    (forall x y, 0 <= x < x1 - x0 -> 0 <= y < y1 - y0 ->
       getpixel out x y = getpixel img (x + x0) (y + y0)) /\
    (forall x y, 0 <= x < width img -> 0 <= y < height img ->
       ~ (x0 <= x < x1 /\ y0 <= y < y1) -> alpha (getpixel img x y) = 0) /\
    (exists y, y0 <= y < y1 /\ alpha (getpixel img x0 y) <> 0) /\
    (exists y, y0 <= y < y1 /\ alpha (getpixel img (x1 - 1) y) <> 0) /\
    (exists x, x0 <= x < x1 /\ alpha (getpixel img x y0) <> 0) /\
    (exists x, x0 <= x < x1 /\ alpha (getpixel img x (y1 - 1)) <> 0) /\
    (forall a0 b0 a1 b1,
       (forall x y, 0 <= x < width img -> 0 <= y < height img ->
          alpha (getpixel img x y) <> 0 -> a0 <= x < a1 /\ b0 <= y < b1) ->
       a0 <= x0 /\ x1 <= a1 /\ b0 <= y0 /\ y1 <= b1).
Proof.
  intros Hwf (xc & yc & Hxc & Hyc & Hc).
  destruct (crop_step_cases img Hwf) as [(_ & Hblank & _)|(b & c & Hb & Ht & Hcrop & Hstep)].
  { exfalso. apply Hc. now apply blank_alpha. }
  destruct b as [[[x0 y0] x1] y1]. exists x0, y0, x1, y1, c.
  destruct (crop_inv _ _ _ _ _ _ Hcrop) as (_ & _ & Hw & Hh & _).
  destruct Ht as (Hx & Hy & Hall & (yl & Hyl & Hhl) & (yr & Hyr & Hhr)
                    & (xt & Hxt & Hht) & (xb & Hxb & Hhb)).
  apply opaque_at_alpha in Hhl, Hhr, Hht, Hhb.
  split; [exact Hb|]. split; [exact Hstep|]. split; [exact Hx|]. split; [exact Hy|].
  split; [exact Hw|]. split; [exact Hh|].
  split; [|split; [|split; [|split; [|split; [|split]]]]]; eauto.
  - intros x y Hx' Hy'. rewrite (crop_getpixel _ _ _ _ _ _ _ _ Hcrop) by lia.
    apply getpixel_padded_inside; lia.
  - intros x y Hx' Hy' Hout.
    destruct (Z.eq_dec (alpha (getpixel img x y)) 0) as [|Hne]; [assumption|].
    exfalso. apply Hout. apply Hall; [assumption..|]. now apply opaque_at_alpha.
  - intros a0 b0 a1 b1 Hbox.
    pose proof (Hbox x0 yl ltac:(lia) ltac:(lia) Hhl).
    pose proof (Hbox (x1 - 1) yr ltac:(lia) ltac:(lia) Hhr).
    pose proof (Hbox xt y0 ltac:(lia) ltac:(lia) Hht).
    pose proof (Hbox xb (y1 - 1) ltac:(lia) ltac:(lia) Hhb).
    lia.
Qed.

Lemma crop_to_opaque_box_witness :
  wf sample_halo /\
  (exists x y, 0 <= x < width sample_halo /\ 0 <= y < height sample_halo
               /\ alpha (getpixel sample_halo x y) <> 0) /\
  exists x0 y0 x1 y1 out,
    getbbox sample_halo = Some (x0, y0, x1, y1) /\ crop_step sample_halo = Ok out /\
    (0 <= x0 < x1 /\ x1 <= width sample_halo) /\
    (0 <= y0 < y1 /\ y1 <= height sample_halo) /\
    width out = x1 - x0 /\ height out = y1 - y0 /\
    (forall x y, 0 <= x < x1 - x0 -> 0 <= y < y1 - y0 ->
       getpixel out x y = getpixel sample_halo (x + x0) (y + y0)) /\
    (forall x y, 0 <= x < width sample_halo -> 0 <= y < height sample_halo ->
       ~ (x0 <= x < x1 /\ y0 <= y < y1) -> alpha (getpixel sample_halo x y) = 0) /\
    (exists y, y0 <= y < y1 /\ alpha (getpixel sample_halo x0 y) <> 0) /\
    (exists y, y0 <= y < y1 /\ alpha (getpixel sample_halo (x1 - 1) y) <> 0) /\
    (exists x, x0 <= x < x1 /\ alpha (getpixel sample_halo x y0) <> 0) /\
    (exists x, x0 <= x < x1 /\ alpha (getpixel sample_halo x (y1 - 1)) <> 0) /\
    (forall a0 b0 a1 b1,
       (forall x y, 0 <= x < width sample_halo -> 0 <= y < height sample_halo ->
          alpha (getpixel sample_halo x y) <> 0 -> a0 <= x < a1 /\ b0 <= y < b1) ->
       a0 <= x0 /\ x1 <= a1 /\ b0 <= y0 /\ y1 <= b1).
Proof.
  assert (Hop : exists x y, 0 <= x < width sample_halo /\ 0 <= y < height sample_halo
                            /\ alpha (getpixel sample_halo x y) <> 0).
  { exists 1, 0. simpl. repeat split; lia. }
  split; [solve_wf|]. split; [exact Hop|].
  apply (crop_to_opaque_box sample_halo); [solve_wf | exact Hop].
Defined.

(** ** The pipeline on buffers *)

(** C3, as stated, fails: no pixel of [sample_halo] is dark, yet the
    output is one pixel wide. *)
Lemma no_black_identity_counterexample :
  wf sample_halo /\
  Forall (fun p => 15 <= red p \/ 15 <= green p \/ 15 <= blue p) (pixels sample_halo) /\
  process sample_halo
    = Ok {| width := 1; height := 1; pixels := [ (200, 30, 30, 255) ] |} /\
  process sample_halo <> Ok sample_halo.
Proof.
  split; [solve_wf|].
  split; [repeat (constructor; [simpl; lia|]); constructor|].
  split; [reflexivity | discriminate].
Qed.

Lemma not_background_fixed (p : pixel) :
  15 <= red p \/ 15 <= green p \/ 15 <= blue p -> threshold_pixel p = p.
Proof.
  intros H. unfold threshold_pixel, is_background, threshold.
  destruct (Z.ltb_spec (red p) 15), (Z.ltb_spec (green p) 15),
    (Z.ltb_spec (blue p) 15); simpl; first [reflexivity | lia].
Qed.

(** C3, amended.  On a buffer in which every pixel has one of red,
    green, blue at 15 or more, the threshold step changes nothing and
    the output is the input cropped to its pixels of non-zero alpha; it
    is the input itself, size unchanged, exactly when no pixel has a
    non-zero alpha or each of the first and last column and the first
    and last row holds a pixel of non-zero alpha. *)
Theorem no_black_identity (img : image) :
  wf img ->
  Forall (fun p => 15 <= red p \/ 15 <= green p \/ 15 <= blue p) (pixels img) ->
  threshold_step img = Ok img /\
  process img = crop_step img /\
  (process img = Ok img <->
     (forall x y, 0 <= x < width img -> 0 <= y < height img ->
        alpha (getpixel img x y) = 0)
     \/ ((exists y, 0 <= y < height img /\ alpha (getpixel img 0 y) <> 0) /\
         (exists y, 0 <= y < height img /\ alpha (getpixel img (width img - 1) y) <> 0) /\
         (exists x, 0 <= x < width img /\ alpha (getpixel img x 0) <> 0) /\
         (exists x, 0 <= x < width img /\ alpha (getpixel img x (height img - 1)) <> 0))).
Proof.
  intros Hwf Hbright.
  assert (Hfix : thresholded img = img).
  { apply thresholded_fixed. eapply Forall_impl; [exact Hbright|].
    apply not_background_fixed. }
  assert (Hthr : threshold_step img = Ok img)
    by (rewrite threshold_step_ok by assumption; now rewrite Hfix).
  assert (Hproc : process img = crop_step img)
    by (rewrite process_thresholded by assumption; now rewrite Hfix).
  split; [exact Hthr|]. split; [exact Hproc|]. rewrite Hproc.
  destruct (crop_step_cases img Hwf)
    as [(Hnone & Hblank & Hstep)|(b & c & Hb & Ht & Hcrop & Hstep)].
  - split; [intros _; left; now apply blank_alpha | intros _; exact Hstep].
  - rewrite Hstep. destruct b as [[[x0 y0] x1] y1].
    destruct (crop_inv _ _ _ _ _ _ Hcrop) as (_ & _ & Hw & Hh & _).
    split.
    + intros [= ->]. right.
      destruct Ht as (Hx & Hy & _ & (yl & Hyl & Hhl) & (yr & Hyr & Hhr)
                        & (xt & Hxt & Hht) & (xb & Hxb & Hhb)).
      apply opaque_at_alpha in Hhl, Hhr, Hht, Hhb.
      assert (x0 = 0) as -> by lia. assert (y0 = 0) as -> by lia.
      assert (x1 = width img) as -> by lia. assert (y1 = height img) as -> by lia.
      split; [exists yl; auto|]. split; [exists yr; auto|].
      split; [exists xt; auto | exists xb; auto].
    + intros [Hzero|((yl & Hyl & Hhl) & (yr & Hyr & Hhr) & (xt & Hxt & Hht)
                       & (xb & Hxb & Hhb))].
      * exfalso. apply (tight_not_blank _ _ _ _ Ht). now apply blank_alpha.
      * apply opaque_at_alpha in Hhl, Hhr, Hht, Hhb.
        assert (Hfull : tight (opaque_at img) (width img) (height img)
                          (0, 0, width img, height img)).
        { split; [lia|]. split; [lia|]. split; [intros; lia|].
          split; [exists yl; auto|]. split; [exists yr; auto|].
          split; [exists xt; auto | exists xb; auto]. }
        pose proof (tight_unique _ _ _ _ _ Ht Hfull) as Heq.
        rewrite Heq in Hcrop. rewrite crop_full in Hcrop by assumption.
        now rewrite <- Hcrop.
Qed.

Lemma no_black_identity_witness :
  wf sample_bright /\
  Forall (fun p => 15 <= red p \/ 15 <= green p \/ 15 <= blue p) (pixels sample_bright) /\
  (threshold_step sample_bright = Ok sample_bright /\
   process sample_bright = crop_step sample_bright /\
   (process sample_bright = Ok sample_bright <->
      (forall x y, 0 <= x < width sample_bright -> 0 <= y < height sample_bright ->
         alpha (getpixel sample_bright x y) = 0)
      \/ ((exists y, 0 <= y < height sample_bright
                     /\ alpha (getpixel sample_bright 0 y) <> 0) /\
          (exists y, 0 <= y < height sample_bright
                     /\ alpha (getpixel sample_bright (width sample_bright - 1) y) <> 0) /\
          (exists x, 0 <= x < width sample_bright
                     /\ alpha (getpixel sample_bright x 0) <> 0) /\
          (exists x, 0 <= x < width sample_bright
                     /\ alpha (getpixel sample_bright x (height sample_bright - 1)) <> 0)))).
Proof.
  assert (Hb : Forall (fun p => 15 <= red p \/ 15 <= green p \/ 15 <= blue p)
                 (pixels sample_bright))
    by (repeat (constructor; [simpl; lia|]); constructor).
  split; [solve_wf|]. split; [exact Hb|].
  apply (no_black_identity sample_bright); [solve_wf | exact Hb].
Defined.

Example process_sample_bright : process sample_bright = Ok sample_bright.
Proof. reflexivity. Qed.

Lemma process_cases (img : image) :
  wf img ->
  exists out,
    process img = Ok out /\ wf out /\
    Forall (fun p => threshold_pixel p = p) (pixels out) /\
    crop_step out = Ok out /\
    0 <= width out <= width img /\ 0 <= height out <= height img.
Proof.
  intros Hwf. pose proof (thresholded_wf img Hwf) as Hwft.
  rewrite process_thresholded by assumption.
  destruct (crop_step_cases _ Hwft)
    as [(Hnone & Hblank & Hstep)|(b & c & Hb & Ht & Hcrop & Hstep)].
  - exists (thresholded img). split; [exact Hstep|]. split; [exact Hwft|].
    split; [apply thresholded_pixels_fixed|]. split; [exact Hstep|].
    destruct Hwf. simpl. lia.
  - exists c. pose proof (crop_wf _ _ _ Hwft Hcrop) as Hwfc.
    split; [exact Hstep|]. split; [exact Hwfc|].
    split; [|split].
    + eapply crop_Forall; [reflexivity | apply thresholded_pixels_fixed | exact Hcrop].
    + unfold crop_step. rewrite (getbbox_cropped _ _ _ Hwft Hb Hcrop).
      now apply crop_full.
    + destruct b as [[[x0 y0] x1] y1].
      destruct (crop_inv _ _ _ _ _ _ Hcrop) as (_ & _ & Hw & Hh & _).
      destruct Ht as (Hx & Hy & _). simpl in Hx, Hy. lia.
Qed.

(** C4. On every RGBA buffer the threshold-then-crop pipeline returns
    a buffer, and running it again on that buffer returns the very
    same buffer. *)
Theorem process_idempotent (img : image) :
  wf img -> exists out, process img = Ok out /\ process out = Ok out.
Proof.
  intros Hwf. destruct (process_cases img Hwf) as (out & Hp & Hwfo & Hfix & Hstep & _).
  exists out. split; [exact Hp|].
  rewrite process_thresholded by assumption.
  now rewrite thresholded_fixed.
Qed.

Lemma process_idempotent_witness :
  wf sample_logo /\ exists out, process sample_logo = Ok out /\ process out = Ok out.
Proof. split; [solve_wf | apply (process_idempotent sample_logo); solve_wf]. Defined.

(** C5. On a buffer whose every pixel has red, green and blue below
    15, the thresholded buffer has no bounding box, nothing is cropped
    and nothing is raised: the output has the width and height of the
    input and every pixel of it is (0, 0, 0, 0). *)
Theorem all_dark_keeps_size (img : image) :
  wf img ->
  Forall (fun p => red p < 15 /\ green p < 15 /\ blue p < 15) (pixels img) ->
  exists t,
    threshold_step img = Ok t /\ getbbox t = None /\ crop_step t = Ok t /\
    process img = Ok t /\
    width t = width img /\ height t = height img /\
    length (pixels t) = length (pixels img) /\
    Forall (fun p => p = (0, 0, 0, 0)) (pixels t).
Proof.
  intros Hwf Hdark. exists (thresholded img).
  pose proof (thresholded_wf img Hwf) as Hwft.
  assert (Hzero : Forall (fun p => p = (0, 0, 0, 0)) (pixels (thresholded img))).
  { simpl. apply Forall_map. eapply Forall_impl; [exact Hdark|].
    intros p (Hr & Hg & Hb). simpl. unfold threshold_pixel, is_background, threshold.
    destruct (Z.ltb_spec (red p) 15), (Z.ltb_spec (green p) 15),
      (Z.ltb_spec (blue p) 15); simpl; first [reflexivity | lia]. }
  assert (Hnone : getbbox (thresholded img) = None).
  { pose proof (getbbox_spec _ Hwft) as Hspec.
    destruct (getbbox (thresholded img)) as [b|]; [exfalso | reflexivity].
    apply (tight_not_blank _ _ _ _ Hspec). apply blank_alpha.
    intros x y _ _. unfold getpixel.
    destruct (nth_in_or_default (Z.to_nat (y * width (thresholded img) + x))
                (pixels (thresholded img)) transparent_black) as [Hin| ->];
      [|reflexivity].
    rewrite List.Forall_forall in Hzero. now rewrite (Hzero _ Hin). }
  assert (Hstep : crop_step (thresholded img) = Ok (thresholded img))
    by (unfold crop_step; now rewrite Hnone).
  split; [now apply threshold_step_ok|]. split; [exact Hnone|]. split; [exact Hstep|].
  split; [now rewrite process_thresholded|].
  split; [reflexivity|]. split; [reflexivity|]. split; [apply length_map | exact Hzero].
Qed.

Lemma all_dark_keeps_size_witness :
  wf sample_dark /\
  Forall (fun p => red p < 15 /\ green p < 15 /\ blue p < 15) (pixels sample_dark) /\
  exists t,
    threshold_step sample_dark = Ok t /\ getbbox t = None /\ crop_step t = Ok t /\
    process sample_dark = Ok t /\
    width t = width sample_dark /\ height t = height sample_dark /\
    length (pixels t) = length (pixels sample_dark) /\
    Forall (fun p => p = (0, 0, 0, 0)) (pixels t).
Proof.
  assert (Hd : Forall (fun p => red p < 15 /\ green p < 15 /\ blue p < 15)
                 (pixels sample_dark))
    by (repeat (constructor; [simpl; lia|]); constructor).
  split; [solve_wf|]. split; [exact Hd|].
  apply (all_dark_keeps_size sample_dark); [solve_wf | exact Hd].
Defined.

Example process_sample_dark :
  process sample_dark
  = Ok {| width := 2; height := 2;
          pixels := [ (0, 0, 0, 0); (0, 0, 0, 0); (0, 0, 0, 0); (0, 0, 0, 0) ] |}.
Proof. reflexivity. Qed.

(** C6. On every RGBA buffer the pipeline returns a buffer that is no
    wider and no higher than the input. *)
Theorem output_not_larger (img : image) :
  wf img ->
  exists out,
    process img = Ok out /\
    width out <= width img /\ height out <= height img.
Proof.
  intros Hwf. destruct (process_cases img Hwf) as (out & Hp & _ & _ & _ & Hw & Hh).
  exists out. split; [exact Hp | lia].
Qed.

Lemma output_not_larger_witness :
  wf sample_logo /\
  exists out,
    process sample_logo = Ok out /\
    width out <= width sample_logo /\ height out <= height sample_logo.
Proof. split; [solve_wf | apply (output_not_larger sample_logo); solve_wf]. Defined.

(** ** The loader *)

Lemma l2rgba_byte (trns : option Z) (l : Z) : is_byte l -> byte_pixel (l2rgba trns l).
Proof.
  intros Hl. unfold l2rgba, byte_pixel, is_byte in *.
  destruct trns as [t|]; simpl; [destruct (l =? t)|]; lia.
Qed.

Lemma p2rgba_byte (palette : list (Z * Z * Z)) (trns : list Z) (i : Z) :
  Forall byte_rgb palette -> Forall is_byte trns -> byte_pixel (p2rgba palette trns i).
Proof.
  intros Hpal Htr. unfold p2rgba.
  assert (Hc : byte_rgb (nth (Z.to_nat i) palette (0, 0, 0))).
  { destruct (nth_in_or_default (Z.to_nat i) palette (0, 0, 0)) as [Hin| ->].
    - rewrite List.Forall_forall in Hpal. now apply Hpal.
    - unfold byte_rgb, is_byte. lia. }
  assert (Ha : is_byte (nth (Z.to_nat i) trns 255)).
  { destruct (nth_in_or_default (Z.to_nat i) trns 255) as [Hin| ->].
    - rewrite List.Forall_forall in Htr. now apply Htr.
    - unfold is_byte. lia. }
  destruct (nth (Z.to_nat i) palette (0, 0, 0)) as [[r g] b].
  unfold byte_rgb in Hc. unfold byte_pixel. simpl. tauto.
Qed.

Lemma pa2rgba_byte (palette : list (Z * Z * Z)) (i a : Z) :
  Forall byte_rgb palette -> is_byte a -> byte_pixel (pa2rgba palette (i, a)).
Proof.
  intros Hpal Ha. unfold pa2rgba.
  assert (Hc : byte_rgb (nth (Z.to_nat i) palette (0, 0, 0))).
  { destruct (nth_in_or_default (Z.to_nat i) palette (0, 0, 0)) as [Hin| ->].
    - rewrite List.Forall_forall in Hpal. now apply Hpal.
    - unfold byte_rgb, is_byte. lia. }
  destruct (nth (Z.to_nat i) palette (0, 0, 0)) as [[r g] b].
  unfold byte_rgb in Hc. unfold byte_pixel. simpl in *. tauto.
Qed.

Lemma rgb2rgba_byte (trns : option (Z * Z * Z)) (c : Z * Z * Z) :
  byte_rgb c -> byte_pixel (rgb2rgba trns c).
Proof.
  destruct c as [[r g] b]. intros (Hr & Hg & Hb).
  unfold rgb2rgba, byte_pixel, is_byte in *.
  destruct trns as [[[tr tg] tb]|]; simpl;
    [destruct ((r =? tr) && (g =? tg) && (b =? tb))|]; lia.
Qed.


Lemma convert_RGBA_wf (d : decoded) : wf_decoded d -> wf (convert_RGBA d).
Proof.
  intros [Hw Hh Hlen Hby]. destruct d as [w h r]. simpl in *.
  split; simpl; [exact Hw | exact Hh | |].
  - destruct r; simpl in *; rewrite ?length_map; exact Hlen.
  - destruct r as [trns px|trns px|px|palette trns px|palette px|trns px|px|trns px];
      simpl in *.
    + apply Forall_map. eapply Forall_impl; [exact Hby|].
      intros v _. apply l2rgba_byte. unfold is_byte. destruct (v =? 0); lia.
    + apply Forall_map. eapply Forall_impl; [exact Hby|]. apply l2rgba_byte.
    + apply Forall_map. eapply Forall_impl; [exact Hby|].
      intros [l a] [Hl Ha]. unfold byte_pixel. simpl in *. tauto.
    + destruct Hby as (Hpal & Htr & Hpx).
      apply Forall_map. eapply Forall_impl; [exact Hpx|].
      intros i _. now apply p2rgba_byte.
    + destruct Hby as (Hpal & Hpx).
      apply Forall_map. eapply Forall_impl; [exact Hpx|].
      intros [i a] [_ Ha]. now apply pa2rgba_byte.
    + apply Forall_map. eapply Forall_impl; [exact Hby|]. apply rgb2rgba_byte.
    + exact Hby.
    + apply Forall_map. eapply Forall_impl; [exact Hby|]. apply rgb2rgba_byte.
Qed.

Ltac solve_wf_decoded :=
  split; simpl;
  [ lia | lia | reflexivity
  | repeat first [ split
                 | constructor
                 | progress (unfold byte_rgb, byte_pixel, is_byte; simpl)
                 | lia ] ].




Example convert_sample_rgb :
  convert_RGBA sample_rgb
  = {| width := 2; height := 1; pixels := [ (0, 0, 0, 255); (250, 128, 3, 255) ] |}.
Proof. reflexivity. Qed.

Example convert_bilevel_keyed :
  convert_RGBA {| d_width := 2; d_height := 1;
                  d_raster := Bilevel (Some 0) [ 0; 255 ] |}
  = {| width := 2; height := 1; pixels := [ (0, 0, 0, 0); (255, 255, 255, 255) ] |}.
Proof. reflexivity. Qed.

Example convert_grey_keyed :
  convert_RGBA {| d_width := 2; d_height := 1; d_raster := L (Some 7) [ 7; 8 ] |}
  = {| width := 2; height := 1; pixels := [ (7, 7, 7, 0); (8, 8, 8, 255) ] |}.
Proof. reflexivity. Qed.

Example convert_palette_alpha :
  convert_RGBA {| d_width := 2; d_height := 1;
                  d_raster := PA [ (1, 2, 3); (200, 100, 0) ] [ (1, 128); (0, 0) ] |}
  = {| width := 2; height := 1; pixels := [ (200, 100, 0, 128); (1, 2, 3, 0) ] |}.
Proof. reflexivity. Qed.

(** ** The run *)

(** A run with too few arguments dies on line 4 or 5. *)
Lemma run_short (argv : list string) (w : world) :
  (length argv < 3)%nat ->
  run argv w
  = ({| disk := disk w; creatable := creatable w; trace := [] |}, Raise IndexError).
Proof.
  intros Hlen. destruct argv as [|prog [|inp [|out rest]]]; try reflexivity.
  simpl in Hlen. lia.
Qed.

(** A run with both paths, statement by statement. *)
Lemma run_paths (prog inp out : string) (rest : list string) (w : world) :
  run (prog :: inp :: out :: rest) w
  = match disk w !! inp with
    | Some (ImageFile d) =>
        match process (convert_RGBA d) with
        | Ok img =>
            if creatable w out then
              ({| disk := <[out := png img]> (disk w);
                  creatable := creatable w;
                  trace := [ Print ("Opening " +:+ inp); OpenImage inp;
                             Print ("Saving to " +:+ out); SaveImage out img;
                             Print "Done" ] |}, Ok tt)
            else
              ({| disk := disk w; creatable := creatable w;
                  trace := [ Print ("Opening " +:+ inp); OpenImage inp;
                             Print ("Saving to " +:+ out); SaveImage out img ] |},
               Raise EncodeError)
        | Raise e =>
            ({| disk := disk w; creatable := creatable w;
                trace := [ Print ("Opening " +:+ inp); OpenImage inp ] |}, Raise e)
        end
    | _ =>
        ({| disk := disk w; creatable := creatable w;
            trace := [ Print ("Opening " +:+ inp); OpenImage inp ] |},
         Raise DecodeError)
    end.
Proof.
  unfold run, main, argv_get, mbind, mret, io_bind, io_ret, Image_open, print,
    save, lift, log. simpl.
  destruct (disk w !! inp) as [[d|]|]; simpl; try reflexivity.
  destruct (process (convert_RGBA d)) as [img|e]; simpl; [|reflexivity].
  destruct (creatable w out); reflexivity.
Qed.

(** Reading the written file back gives the buffer that was saved. *)
Lemma convert_decoded_of (img : image) : convert_RGBA (decoded_of img) = img.
Proof. now destruct img. Qed.

(** After a run that ends well the output file holds a buffer the
    pipeline maps to itself. *)
Lemma run_output_fixed (prog inp out : string) (rest : list string)
    (w w' : world) (d : decoded) :
  disk w !! inp = Some (ImageFile d) -> wf_decoded d ->
  run (prog :: inp :: out :: rest) w = (w', Ok tt) ->
  exists img,
    disk w' !! out = Some (png img) /\
    process (convert_RGBA d) = Ok img /\
    process (convert_RGBA (decoded_of img)) = Ok img.
Proof.
  intros Hin Hwf. rewrite run_paths, Hin.
  destruct (process_cases _ (convert_RGBA_wf d Hwf))
    as (img & Hp & Hwfi & Hfix & Hstep & _).
  rewrite Hp. destruct (creatable w out); [|discriminate].
  intros [= <-]. exists img. simpl. rewrite convert_decoded_of.
  split; [apply lookup_insert_eq|]. split; [reflexivity|].
  rewrite process_thresholded by assumption. now rewrite thresholded_fixed.
Qed.

(** C7. A run whose input path is missing from the disk, or names a
    file that is no image, dies with DecodeError and a non-zero exit
    status right after the attempt to open it: nothing was processed,
    no save was attempted, and the disk is as it was. *)
Theorem decode_failure (prog inp out : string) (rest : list string) (w : world) :
  disk w !! inp = None \/ disk w !! inp = Some OtherFile ->
  exists w',
    run (prog :: inp :: out :: rest) w = (w', Raise DecodeError) /\
    exit_status (Raise DecodeError) <> 0 /\
    trace w' = [ Print ("Opening " +:+ inp); OpenImage inp ] /\
    saves (trace w') = [] /\
    disk w' = disk w.
Proof.
  intros Hin. rewrite run_paths.
  eexists. split; [destruct Hin as [-> | ->]; reflexivity|].
  simpl. repeat split. discriminate.
Qed.

Lemma decode_failure_witness :
  (disk sample_world !! "absent.png" = None
   \/ disk sample_world !! "absent.png" = Some OtherFile) /\
  exists w',
    run [ "process_logo.py"; "absent.png"; "out.png" ] sample_world
      = (w', Raise DecodeError) /\
    exit_status (Raise DecodeError) <> 0 /\
    trace w' = [ Print ("Opening " +:+ "absent.png"); OpenImage "absent.png" ] /\
    saves (trace w') = [] /\
    disk w' = disk sample_world.
Proof.
  split; [left; vm_compute; reflexivity|].
  apply (decode_failure "process_logo.py" "absent.png" "out.png" [] sample_world).
  left. vm_compute. reflexivity.
Defined.

Example run_on_text_file :
  snd (run [ "process_logo.py"; "notes.txt"; "out.png" ] sample_world)
  = Raise DecodeError.
Proof. vm_compute. reflexivity. Qed.

(** Whatever the arguments and the world, a run calls [save] at most
    once, and only as its last step but for the final message. *)
Lemma run_saves_once (argv : list string) (w : world) :
  exists w' r,
    run argv w = (w', r) /\
    ((saves (trace w') = [] /\ disk w' = disk w /\ r <> Ok tt)
     \/ (exists pre path img,
           trace w' = pre ++ [ SaveImage path img ] /\ saves pre = [] /\
           disk w' = disk w /\ r = Raise EncodeError)
     \/ (exists pre path img,
           trace w' = pre ++ [ SaveImage path img; Print "Done" ] /\ saves pre = [] /\
           disk w' = <[path := png img]> (disk w) /\ r = Ok tt)).
Proof.
  destruct (Nat.lt_ge_cases (length argv) 3) as [Hlen|Hlen].
  - rewrite run_short by assumption. do 2 eexists. split; [reflexivity|].
    left. simpl. repeat split. discriminate.
  - destruct argv as [|prog [|inp [|out rest]]]; simpl in Hlen; try lia.
    rewrite run_paths.
    destruct (disk w !! inp) as [[d|]|];
      [destruct (process (convert_RGBA d)) as [img|e];
       [destruct (creatable w out)|]|..];
      do 2 eexists; (split; [reflexivity|]).
    + right. right.
      exists [ Print ("Opening " +:+ inp); OpenImage inp; Print ("Saving to " +:+ out) ],
        out, img. simpl. repeat split.
    + right. left.
      exists [ Print ("Opening " +:+ inp); OpenImage inp; Print ("Saving to " +:+ out) ],
        out, img. simpl. repeat split.
    + left. simpl. repeat split. discriminate.
    + left. simpl. repeat split. discriminate.
    + left. simpl. repeat split. discriminate.
Qed.

(** C8, as stated, fails: with an output path that cannot be created
    and an input path that is missing, the run dies with DecodeError
    before any processing, and never reaches the save. *)
Lemma encode_failure_counterexample :
  creatable sample_world "/missing/out.png" = false /\
  exists w',
    run [ "process_logo.py"; "absent.png"; "/missing/out.png" ] sample_world
      = (w', Raise DecodeError) /\
    saves (trace w') = [] /\
    snd (run [ "process_logo.py"; "absent.png"; "/missing/out.png" ] sample_world)
      <> Raise EncodeError.
Proof.
  split; [reflexivity|]. eexists. split; [vm_compute; reflexivity|].
  split; [reflexivity|]. vm_compute. discriminate.
Qed.

(** C8, amended.  A run whose input decodes and whose output path
    cannot be created (its directory is missing or not writable) dies
    with EncodeError and a non-zero exit status; [save] is called once,
    after thresholding and cropping, with the finished buffer, and is
    not called again; the disk is as it was.  Whatever the arguments, a
    run calls [save] at most once. *)
Theorem encode_failure (prog inp out : string) (rest : list string)
    (w : world) (d : decoded) :
  disk w !! inp = Some (ImageFile d) -> wf_decoded d -> creatable w out = false ->
  exists img w',
    process (convert_RGBA d) = Ok img /\
    run (prog :: inp :: out :: rest) w = (w', Raise EncodeError) /\
    exit_status (Raise EncodeError) <> 0 /\
    trace w' = [ Print ("Opening " +:+ inp); OpenImage inp;
                 Print ("Saving to " +:+ out); SaveImage out img ] /\
    saves (trace w') = [ (out, img) ] /\
    disk w' = disk w /\
    forall argv0 w0, (length (saves (trace (fst (run argv0 w0)))) <= 1)%nat.
Proof.
  intros Hin Hwf Hout.
  destruct (process_cases _ (convert_RGBA_wf d Hwf)) as (img & Hp & _).
  exists img. rewrite run_paths, Hin, Hp, Hout.
  eexists. split; [reflexivity|]. split; [reflexivity|]. simpl.
  split; [discriminate|]. split; [reflexivity|]. split; [reflexivity|].
  split; [reflexivity|].
  intros argv0 w0. destruct (run_saves_once argv0 w0) as (w1 & r & -> & Hcases).
  simpl. destruct Hcases as [(-> & _)|[(pre & path & im & -> & Hpre & _)
                                      |(pre & path & im & -> & Hpre & _)]].
  - simpl. lia.
  - unfold saves in *. rewrite flat_map_app, Hpre. simpl. lia.
  - unfold saves in *. rewrite flat_map_app, Hpre. simpl. lia.
Qed.

Lemma encode_failure_witness :
  disk sample_world !! "logo.png" = Some (ImageFile (decoded_of sample_logo)) /\
  wf_decoded (decoded_of sample_logo) /\
  creatable sample_world "/missing/out.png" = false /\
  exists img w',
    process (convert_RGBA (decoded_of sample_logo)) = Ok img /\
    run [ "process_logo.py"; "logo.png"; "/missing/out.png" ] sample_world
      = (w', Raise EncodeError) /\
    exit_status (Raise EncodeError) <> 0 /\
    trace w' = [ Print ("Opening " +:+ "logo.png"); OpenImage "logo.png";
                 Print ("Saving to " +:+ "/missing/out.png");
                 SaveImage "/missing/out.png" img ] /\
    saves (trace w') = [ ("/missing/out.png", img) ] /\
    disk w' = disk sample_world /\
    forall argv0 w0, (length (saves (trace (fst (run argv0 w0)))) <= 1)%nat.
Proof.
  split; [vm_compute; reflexivity|]. split; [solve_wf_decoded|].
  split; [reflexivity|].
  apply (encode_failure "process_logo.py" "logo.png" "/missing/out.png" []
           sample_world (decoded_of sample_logo));
    [vm_compute; reflexivity | solve_wf_decoded | reflexivity].
Defined.

Example run_sample_logo :
  exists w',
    run [ "process_logo.py"; "logo.png"; "out.png" ] sample_world = (w', Ok tt) /\
    disk w' !! "out.png"
      = Some (png {| width := 1; height := 2;
                     pixels := [ (200, 10, 10, 255); (15, 0, 0, 7) ] |}) /\
    trace w' = [ Print "Opening logo.png"; OpenImage "logo.png";
                 Print "Saving to out.png";
                 SaveImage "out.png"
                   {| width := 1; height := 2;
                      pixels := [ (200, 10, 10, 255); (15, 0, 0, 7) ] |};
                 Print "Done" ].
Proof.
  eexists. rewrite run_paths.
  replace (disk sample_world !! "logo.png")
    with (Some (ImageFile (decoded_of sample_logo))) by (vm_compute; reflexivity).
  split; [reflexivity|]. simpl. split; [apply lookup_insert_eq | reflexivity].
Qed.

(** C10. An invocation with fewer than two command-line arguments
    (fewer than three entries in [sys.argv], the script name being the
    first) dies with IndexError and a non-zero exit status before
    anything is printed, opened or saved, and the disk is as it was;
    arguments after the second make no difference to the run. *)
Theorem missing_arguments (argv : list string) (w : world) :
  ((length argv < 3)%nat ->
   exists w',
     run argv w = (w', Raise IndexError) /\
     exit_status (Raise IndexError) <> 0 /\
     trace w' = [] /\ opens (trace w') = [] /\ saves (trace w') = [] /\
     disk w' = disk w) /\
  (forall prog inp out rest,
     argv = prog :: inp :: out :: rest -> run argv w = run [ prog; inp; out ] w).
Proof.
  split.
  - intros Hlen. rewrite run_short by assumption.
    eexists. split; [reflexivity|]. simpl. repeat split. discriminate.
  - intros prog inp out rest ->. now rewrite !run_paths.
Qed.

Lemma missing_arguments_witness :
  (length [ "process_logo.py"; "logo.png" ] < 3)%nat /\
  (exists w',
     run [ "process_logo.py"; "logo.png" ] sample_world = (w', Raise IndexError) /\
     exit_status (Raise IndexError) <> 0 /\
     trace w' = [] /\ opens (trace w') = [] /\ saves (trace w') = [] /\
     disk w' = disk sample_world) /\
  run [ "process_logo.py"; "logo.png"; "out.png"; "extra" ] sample_world
    = run [ "process_logo.py"; "logo.png"; "out.png" ] sample_world.
Proof.
  split; [simpl; lia|]. split.
  - apply (proj1 (missing_arguments [ "process_logo.py"; "logo.png" ] sample_world)).
    simpl; lia.
  - apply (proj2 (missing_arguments
                    [ "process_logo.py"; "logo.png"; "out.png"; "extra" ] sample_world)
             "process_logo.py" "logo.png" "out.png" [ "extra" ] eq_refl).
Defined.

(** * Further properties of the script *)

(** ** The loop of lines 17-22 *)

(** The loop appends one entry per item, in order: the result has the
    length of the input, the loop over a concatenation is the
    concatenation of the loops, and a second pass changes nothing. *)
Theorem threshold_loop_compose (a b : list pixel) :
  length (threshold_loop a) = length a /\
  threshold_loop (a ++ b) = threshold_loop a ++ threshold_loop b /\
  threshold_loop (threshold_loop a) = threshold_loop a.
Proof.
  rewrite !threshold_loop_map. split; [apply length_map|].
  split; [apply map_app|].
  rewrite map_map. apply map_ext. apply threshold_pixel_idem.
Qed.

(** ** Lines 11-28 on a buffer *)

Lemma getpixel_thresholded (img : image) (x y : Z) :
  getpixel (thresholded img) x y = threshold_pixel (getpixel img x y).
Proof.
  unfold getpixel. simpl.
  change transparent_black with (threshold_pixel transparent_black) at 1.
  apply map_nth.
Qed.

Lemma getbbox_blank_none (im : image) :
  wf im -> blank (opaque_at im) (width im) (height im) -> getbbox im = None.
Proof.
  intros Hwf Hblank. pose proof (getbbox_spec im Hwf) as Hspec.
  destruct (getbbox im) as [b|]; [exfalso | reflexivity].
  now apply (tight_not_blank _ _ _ _ Hspec).
Qed.

(** The crop branch of line 27 is skipped exactly when no pixel of the
    buffer has a non-zero alpha; the buffer is then left as it is. *)
Theorem crop_skipped_iff (img : image) :
  wf img ->
  (getbbox img = None <->
   forall x y, 0 <= x < width img -> 0 <= y < height img ->
     alpha (getpixel img x y) = 0) /\
  (getbbox img = None -> crop_step img = Ok img).
Proof.
  intros Hwf. pose proof (getbbox_spec img Hwf) as Hspec. split.
  - destruct (getbbox img) as [b|].
    + split; [discriminate|]. intros Hzero. exfalso.
      apply (tight_not_blank _ _ _ _ Hspec). now apply blank_alpha.
    + split; [intros _; now apply blank_alpha | reflexivity].
  - intros Hnone. unfold crop_step. now rewrite Hnone.
Qed.

Lemma crop_skipped_iff_witness :
  wf sample_ghost /\
  (forall x y, 0 <= x < width sample_ghost -> 0 <= y < height sample_ghost ->
     alpha (getpixel sample_ghost x y) = 0) /\
  getbbox sample_ghost = None /\
  crop_step sample_ghost = Ok sample_ghost.
Proof.
  assert (Hwf : wf sample_ghost) by solve_wf.
  assert (Hzero : forall x y, 0 <= x < width sample_ghost ->
                    0 <= y < height sample_ghost ->
                    alpha (getpixel sample_ghost x y) = 0).
  { simpl. intros x y Hx Hy.
    assert (y = 0) as -> by lia.
    assert (x = 0 \/ x = 1) as [-> | ->] by lia; reflexivity. }
  destruct (crop_skipped_iff sample_ghost Hwf) as [Hiff Hskip].
  split; [exact Hwf|]. split; [exact Hzero|].
  split; [exact (proj2 Hiff Hzero) | exact (Hskip (proj2 Hiff Hzero))].
Defined.

(** Every pixel of the output is (0, 0, 0, 0) or a pixel of the input
    that has one of red, green, blue at 15 or more: no dark pixel is
    left other than transparent black, and no colour is made up. *)
Theorem output_pixels_origin (img : image) :
  wf img ->
  exists out,
    process img = Ok out /\
    Forall (fun p => p = (0, 0, 0, 0)
                     \/ (In p (pixels img)
                         /\ (15 <= red p \/ 15 <= green p \/ 15 <= blue p)))
           (pixels out).
Proof.
  intros Hwf. pose proof (thresholded_wf img Hwf) as Hwft.
  set (Q := fun p : pixel =>
              p = (0, 0, 0, 0)
              \/ (In p (pixels img) /\ (15 <= red p \/ 15 <= green p \/ 15 <= blue p))).
  assert (Ht : Forall Q (pixels (thresholded img))).
  { simpl. apply List.Forall_forall. intros p Hp.
    apply in_map_iff in Hp as (q & <- & Hq).
    unfold Q, threshold_pixel, is_background, threshold.
    destruct (Z.ltb_spec (red q) 15), (Z.ltb_spec (green q) 15),
      (Z.ltb_spec (blue q) 15); simpl;
      first [ now left | right; split; [assumption | lia] ]. }
  rewrite process_thresholded by assumption.
  destruct (crop_step_cases _ Hwft)
    as [(_ & _ & Hstep)|(b & c & _ & _ & Hcrop & Hstep)].
  - exists (thresholded img). split; [exact Hstep | exact Ht].
  - exists c. split; [exact Hstep|].
    apply (crop_Forall Q _ _ _ (or_introl eq_refl) Ht Hcrop).
Qed.

Lemma output_pixels_origin_witness :
  wf sample_logo /\
  exists out,
    process sample_logo = Ok out /\
    Forall (fun p => p = (0, 0, 0, 0)
                     \/ (In p (pixels sample_logo)
                         /\ (15 <= red p \/ 15 <= green p \/ 15 <= blue p)))
           (pixels out).
Proof. split; [solve_wf | apply (output_pixels_origin sample_logo); solve_wf]. Defined.

(** The output is a window of the thresholded input: there is an
    offset inside the input such that each output pixel is the
    thresholded input pixel at the shifted position, and every input
    position whose thresholded pixel has a non-zero alpha falls inside
    the window. *)
Theorem output_window (img : image) :
  wf img ->
  exists out x0 y0,
    process img = Ok out /\
    (0 <= x0 /\ x0 + width out <= width img) /\
    (0 <= y0 /\ y0 + height out <= height img) /\
    (forall x y, 0 <= x < width out -> 0 <= y < height out ->
       getpixel out x y
       = (let p := getpixel img (x + x0) (y + y0) in
          if (red p <? 15) && (green p <? 15) && (blue p <? 15)
          then (0, 0, 0, 0) else p)) /\
    (forall x y, 0 <= x < width img -> 0 <= y < height img ->
       ~ ((red (getpixel img x y) < 15 /\ green (getpixel img x y) < 15
           /\ blue (getpixel img x y) < 15)) ->
       alpha (getpixel img x y) <> 0 ->
       x0 <= x < x0 + width out /\ y0 <= y < y0 + height out).
Proof.
  intros Hwf. pose proof (thresholded_wf img Hwf) as Hwft.
  rewrite process_thresholded by assumption.
  destruct (crop_step_cases _ Hwft)
    as [(_ & Hblank & Hstep)|(b & c & _ & Ht & Hcrop & Hstep)].
  - exists (thresholded img), 0, 0. split; [exact Hstep|]. simpl.
    split; [lia|]. split; [lia|]. split.
    + intros x y _ _. rewrite getpixel_thresholded, !Z.add_0_r. reflexivity.
    + intros x y Hx Hy Hbright Ha. exfalso.
      rewrite blank_alpha in Hblank. specialize (Hblank x y Hx Hy).
      rewrite getpixel_thresholded in Hblank.
      unfold threshold_pixel, is_background, threshold in Hblank.
      destruct (Z.ltb_spec (red (getpixel img x y)) 15),
        (Z.ltb_spec (green (getpixel img x y)) 15),
        (Z.ltb_spec (blue (getpixel img x y)) 15); simpl in Hblank;
        first [ contradiction | apply Hbright; lia ].
  - destruct b as [[[x0 y0] x1] y1]. exists c, x0, y0.
    destruct (crop_inv _ _ _ _ _ _ Hcrop) as (_ & _ & Hw & Hh & _).
    destruct Ht as (Hx & Hy & Hall & _). simpl in Hx, Hy.
    split; [exact Hstep|]. split; [lia|]. split; [lia|]. split.
    + intros x y Hx' Hy'.
      rewrite (crop_getpixel _ _ _ _ _ _ _ _ Hcrop) by lia.
      rewrite getpixel_padded_inside by (simpl; lia).
      apply getpixel_thresholded.
    + intros x y Hx' Hy' Hbright Ha.
      assert (Hhit : opaque_at (thresholded img) x y = true).
      { apply opaque_at_alpha. rewrite getpixel_thresholded.
        unfold threshold_pixel, is_background, threshold.
        destruct (Z.ltb_spec (red (getpixel img x y)) 15),
          (Z.ltb_spec (green (getpixel img x y)) 15),
          (Z.ltb_spec (blue (getpixel img x y)) 15); simpl;
          first [ assumption | exfalso; apply Hbright; lia ]. }
      specialize (Hall x y Hx' Hy' Hhit). lia.
Qed.

Lemma output_window_witness :
  wf sample_logo /\
  exists out x0 y0,
    process sample_logo = Ok out /\
    (0 <= x0 /\ x0 + width out <= width sample_logo) /\
    (0 <= y0 /\ y0 + height out <= height sample_logo) /\
    (forall x y, 0 <= x < width out -> 0 <= y < height out ->
       getpixel out x y
       = (let p := getpixel sample_logo (x + x0) (y + y0) in
          if (red p <? 15) && (green p <? 15) && (blue p <? 15)
          then (0, 0, 0, 0) else p)) /\
    (forall x y, 0 <= x < width sample_logo -> 0 <= y < height sample_logo ->
       ~ ((red (getpixel sample_logo x y) < 15 /\ green (getpixel sample_logo x y) < 15
           /\ blue (getpixel sample_logo x y) < 15)) ->
       alpha (getpixel sample_logo x y) <> 0 ->
       x0 <= x < x0 + width out /\ y0 <= y < y0 + height out).
Proof. split; [solve_wf | apply (output_window sample_logo); solve_wf]. Defined.

(** The output has no transparent margin left: either no pixel of it
    has a non-zero alpha, and then it has the size of the input, or it
    is at least 1 x 1 and each of its first and last column and first
    and last row holds a pixel of non-zero alpha. *)
Theorem output_border (img : image) :
  wf img ->
  exists out,
    process img = Ok out /\
    (((forall x y, 0 <= x < width out -> 0 <= y < height out ->
         alpha (getpixel out x y) = 0)
      /\ width out = width img /\ height out = height img)
     \/ (0 < width out /\ 0 < height out /\
         (exists y, 0 <= y < height out /\ alpha (getpixel out 0 y) <> 0) /\
         (exists y, 0 <= y < height out
                    /\ alpha (getpixel out (width out - 1) y) <> 0) /\
         (exists x, 0 <= x < width out /\ alpha (getpixel out x 0) <> 0) /\
         (exists x, 0 <= x < width out
                    /\ alpha (getpixel out x (height out - 1)) <> 0))).
Proof.
  intros Hwf. pose proof (thresholded_wf img Hwf) as Hwft.
  rewrite process_thresholded by assumption.
  destruct (crop_step_cases _ Hwft)
    as [(_ & Hblank & Hstep)|(b & c & Hb & _ & Hcrop & Hstep)].
  - exists (thresholded img). split; [exact Hstep|]. left.
    split; [now apply blank_alpha | split; reflexivity].
  - exists c. split; [exact Hstep|]. right.
    pose proof (crop_wf _ _ _ Hwft Hcrop) as Hwfc.
    pose proof (getbbox_spec c Hwfc) as Hspec.
    rewrite (getbbox_cropped _ _ _ Hwft Hb Hcrop) in Hspec.
    destruct Hspec as (Hx & Hy & _ & (yl & Hyl & Hhl) & (yr & Hyr & Hhr)
                         & (xt & Hxt & Hht) & (xb & Hxb & Hhb)).
    apply opaque_at_alpha in Hhl, Hhr, Hht, Hhb.
    split; [lia|]. split; [lia|].
    split; [exists yl; auto|]. split; [exists yr; auto|].
    split; [exists xt; auto | exists xb; auto].
Qed.

Lemma output_border_witness :
  wf sample_logo /\
  exists out,
    process sample_logo = Ok out /\
    (((forall x y, 0 <= x < width out -> 0 <= y < height out ->
         alpha (getpixel out x y) = 0)
      /\ width out = width sample_logo /\ height out = height sample_logo)
     \/ (0 < width out /\ 0 < height out /\
         (exists y, 0 <= y < height out /\ alpha (getpixel out 0 y) <> 0) /\
         (exists y, 0 <= y < height out
                    /\ alpha (getpixel out (width out - 1) y) <> 0) /\
         (exists x, 0 <= x < width out /\ alpha (getpixel out x 0) <> 0) /\
         (exists x, 0 <= x < width out
                    /\ alpha (getpixel out x (height out - 1)) <> 0))).
Proof. split; [solve_wf | apply (output_border sample_logo); solve_wf]. Defined.

(** A buffer that is fully transparent (alpha 0 at every pixel) is
    thresholded but never cropped, whatever its colours are: the output
    is the result of the threshold step, at the size of the input. *)
Theorem fully_transparent_uncropped (img : image) :
  wf img ->
  Forall (fun p => alpha p = 0) (pixels img) ->
  exists t,
    threshold_step img = Ok t /\ getbbox t = None /\ process img = Ok t /\
    width t = width img /\ height t = height img.
Proof.
  intros Hwf Hzero. exists (thresholded img).
  pose proof (thresholded_wf img Hwf) as Hwft.
  assert (Hnone : getbbox (thresholded img) = None).
  { apply (getbbox_blank_none _ Hwft), blank_alpha. intros x y _ _.
    rewrite getpixel_thresholded. unfold getpixel.
    destruct (nth_in_or_default (Z.to_nat (y * width img + x)) (pixels img)
                transparent_black) as [Hin| ->]; [|reflexivity].
    rewrite List.Forall_forall in Hzero. specialize (Hzero _ Hin).
    unfold threshold_pixel. destruct (is_background _); [reflexivity | exact Hzero]. }
  split; [now apply threshold_step_ok|]. split; [exact Hnone|].
  split; [|split; reflexivity].
  rewrite process_thresholded by assumption. unfold crop_step. now rewrite Hnone.
Qed.

Lemma fully_transparent_uncropped_witness :
  wf sample_ghost /\
  Forall (fun p => alpha p = 0) (pixels sample_ghost) /\
  exists t,
    threshold_step sample_ghost = Ok t /\ getbbox t = None /\
    process sample_ghost = Ok t /\
    width t = width sample_ghost /\ height t = height sample_ghost.
Proof.
  assert (Hz : Forall (fun p => alpha p = 0) (pixels sample_ghost))
    by (repeat (constructor; [reflexivity|]); constructor).
  split; [solve_wf|]. split; [exact Hz|].
  apply (fully_transparent_uncropped sample_ghost); [solve_wf | exact Hz].
Defined.

Example process_sample_ghost :
  process sample_ghost
  = Ok {| width := 2; height := 1; pixels := [ (255, 255, 255, 0); (0, 0, 0, 0) ] |}.
Proof. reflexivity. Qed.

(** A buffer without pixels (width or height zero) goes through
    lines 11-28 unchanged: the loop appends nothing, [putdata] accepts
    the empty list, and there is no box to crop to. *)
Theorem empty_buffer_unchanged (img : image) :
  wf img -> width img = 0 \/ height img = 0 -> process img = Ok img.
Proof.
  intros Hwf Hempty.
  assert (Hnil : pixels img = []).
  { destruct Hwf as [_ _ Hlen _]. destruct (pixels img); [reflexivity|].
    simpl in Hlen. nia. }
  assert (Hfix : thresholded img = img).
  { apply thresholded_fixed. rewrite Hnil. constructor. }
  rewrite process_thresholded, Hfix by assumption.
  unfold crop_step. rewrite getbbox_blank_none; [reflexivity | assumption |].
  intros x y Hx Hy. lia.
Qed.

Lemma empty_buffer_unchanged_witness :
  wf sample_empty /\ (width sample_empty = 0 \/ height sample_empty = 0) /\
  process sample_empty = Ok sample_empty.
Proof.
  split; [solve_wf|]. split; [left; reflexivity|].
  apply (empty_buffer_unchanged sample_empty); [solve_wf | left; reflexivity].
Defined.

(** ** The whole run *)

(** A run whose input decodes and whose output can be created ends
    with exit status 0; it prints the opening line, opens the input,
    prints the saving line, saves once and prints Done, in this order;
    afterwards the output path holds the PNG of the processed buffer
    and no other path has changed. *)
Theorem run_success (prog inp out : string) (rest : list string)
    (w : world) (d : decoded) :
  disk w !! inp = Some (ImageFile d) -> wf_decoded d -> creatable w out = true ->
  exists img w',
    process (convert_RGBA d) = Ok img /\
    run (prog :: inp :: out :: rest) w = (w', Ok tt) /\
    exit_status (Ok tt) = 0 /\
    trace w' = [ Print ("Opening " +:+ inp); OpenImage inp;
                 Print ("Saving to " +:+ out); SaveImage out img;
                 Print "Done" ] /\
    disk w' = <[out := png img]> (disk w) /\
    disk w' !! out = Some (png img) /\
    (forall path, path <> out -> disk w' !! path = disk w !! path).
Proof.
  intros Hin Hwf Hout.
  destruct (process_cases _ (convert_RGBA_wf d Hwf)) as (img & Hp & _).
  exists img. rewrite run_paths, Hin, Hp, Hout.
  eexists. split; [reflexivity|]. split; [reflexivity|]. simpl.
  split; [reflexivity|]. split; [reflexivity|]. split; [reflexivity|].
  split; [apply lookup_insert_eq|].
  intros path Hne. now apply lookup_insert_ne.
Qed.

Lemma run_success_witness :
  disk sample_world !! "logo.png" = Some (ImageFile (decoded_of sample_logo)) /\
  wf_decoded (decoded_of sample_logo) /\
  creatable sample_world "out.png" = true /\
  exists img w',
    process (convert_RGBA (decoded_of sample_logo)) = Ok img /\
    run [ "process_logo.py"; "logo.png"; "out.png" ] sample_world = (w', Ok tt) /\
    exit_status (Ok tt) = 0 /\
    trace w' = [ Print ("Opening " +:+ "logo.png"); OpenImage "logo.png";
                 Print ("Saving to " +:+ "out.png"); SaveImage "out.png" img;
                 Print "Done" ] /\
    disk w' = <["out.png" := png img]> (disk sample_world) /\
    disk w' !! "out.png" = Some (png img) /\
    (forall path, path <> "out.png" -> disk w' !! path = disk sample_world !! path).
Proof.
  split; [vm_compute; reflexivity|]. split; [solve_wf_decoded|].
  split; [reflexivity|].
  apply (run_success "process_logo.py" "logo.png" "out.png" []
           sample_world (decoded_of sample_logo));
    [vm_compute; reflexivity | solve_wf_decoded | reflexivity].
Defined.

(** Whatever the arguments and the world, a run changes no path of the
    disk but the one named by the second argument, and a run that does
    not end well changes no path at all. *)
Theorem run_touches_output_only (argv : list string) (w : world) :
  (snd (run argv w) <> Ok tt -> disk (fst (run argv w)) = disk w) /\
  (forall path, argv !! 2%nat <> Some path ->
     disk (fst (run argv w)) !! path = disk w !! path).
Proof.
  destruct (Nat.lt_ge_cases (length argv) 3) as [Hlen|Hlen].
  - rewrite run_short by assumption. simpl. split; reflexivity.
  - destruct argv as [|prog [|inp [|out rest]]]; simpl in Hlen; try lia.
    rewrite run_paths.
    destruct (disk w !! inp) as [[d|]|];
      [destruct (process (convert_RGBA d)) as [img|e];
       [destruct (creatable w out)|]|..]; simpl;
      (split; [first [reflexivity | intros H; now contradiction H]
              | intros path Hne; try reflexivity]).
    apply lookup_insert_ne. intros ->. now apply Hne.
Qed.

Lemma run_touches_output_only_witness :
  [ "process_logo.py"; "logo.png"; "logo.png" ] !! 2%nat <> Some "notes.txt" /\
  disk (fst (run [ "process_logo.py"; "logo.png"; "logo.png" ] sample_world))
    !! "notes.txt"
  = disk sample_world !! "notes.txt".
Proof.
  split; [discriminate|].
  apply (proj2 (run_touches_output_only
                  [ "process_logo.py"; "logo.png"; "logo.png" ] sample_world)).
  discriminate.
Defined.

(** On a disk whose image files are well formed, the way a run ends is
    decided in this order: too few arguments give IndexError; else an
    input that is no image gives DecodeError; else an output that
    cannot be created gives EncodeError; else the run ends well.
    [putdata] and [crop] never raise. *)
Theorem run_outcome (argv : list string) (w : world) :
  wf_disk w ->
  snd (run argv w)
  = match argv with
    | _ :: inp :: out :: _ =>
        match disk w !! inp with
        | Some (ImageFile _) =>
            if creatable w out then Ok tt else Raise EncodeError
        | _ => Raise DecodeError
        end
    | _ => Raise IndexError
    end.
Proof.
  intros Hdisk. destruct argv as [|prog [|inp [|out rest]]]; try reflexivity.
  rewrite run_paths.
  destruct (disk w !! inp) as [[d|]|] eqn:Hin; try reflexivity.
  destruct (process_cases _ (convert_RGBA_wf d (Hdisk _ _ Hin))) as (img & -> & _).
  destruct (creatable w out); reflexivity.
Qed.

Ltac solve_wf_sample_world :=
  let path := fresh "path" in
  let d := fresh "d" in
  let H := fresh "H" in
  intros path d H; unfold sample_world in H; simpl in H;
  rewrite lookup_insert in H; case_decide;
  [ injection H as <-; solve_wf_decoded
  | rewrite lookup_insert in H; case_decide;
    [ discriminate H | rewrite lookup_empty in H; discriminate H ] ].

Lemma run_outcome_witness :
  wf_disk sample_world /\
  snd (run [ "process_logo.py"; "logo.png"; "/missing/out.png" ] sample_world)
  = match disk sample_world !! "logo.png" with
    | Some (ImageFile _) =>
        if creatable sample_world "/missing/out.png" then Ok tt else Raise EncodeError
    | _ => Raise DecodeError
    end.
Proof.
  split; [solve_wf_sample_world|].
  apply (run_outcome [ "process_logo.py"; "logo.png"; "/missing/out.png" ] sample_world).
  solve_wf_sample_world.
Defined.

(** Whatever the arguments and the world, the exit status is 0 exactly
    when the last thing the run did is print Done; and then the one
    save of the run went to the path of the second argument, which
    holds the saved buffer. *)
Theorem done_iff_success (argv : list string) (w : world) :
  (exit_status (snd (run argv w)) = 0
   <-> last (trace (fst (run argv w))) = Some (Print "Done")) /\
  (exit_status (snd (run argv w)) = 0 ->
   exists out img,
     argv !! 2%nat = Some out /\
     saves (trace (fst (run argv w))) = [ (out, img) ] /\
     disk (fst (run argv w)) !! out = Some (png img)).
Proof.
  destruct (Nat.lt_ge_cases (length argv) 3) as [Hlen|Hlen].
  - rewrite run_short by assumption. simpl.
    split; [split|]; discriminate.
  - destruct argv as [|prog [|inp [|out rest]]]; simpl in Hlen; try lia.
    rewrite run_paths.
    destruct (disk w !! inp) as [[d|]|];
      [destruct (process (convert_RGBA d)) as [img|e];
       [destruct (creatable w out)|]|..]; simpl;
      try (split; [split|]; discriminate).
    split; [split; reflexivity|]. intros _.
    exists out, img. split; [reflexivity|]. split; [reflexivity|].
    apply lookup_insert_eq.
Qed.

Lemma done_iff_success_witness :
  exit_status (snd (run [ "process_logo.py"; "logo.png"; "out.png" ] sample_world)) = 0 /\
  exists out img,
    [ "process_logo.py"; "logo.png"; "out.png" ] !! 2%nat = Some out /\
    saves (trace (fst (run [ "process_logo.py"; "logo.png"; "out.png" ] sample_world)))
      = [ (out, img) ] /\
    disk (fst (run [ "process_logo.py"; "logo.png"; "out.png" ] sample_world)) !! out
      = Some (png img).
Proof.
  split; [vm_compute; reflexivity|].
  apply (proj2 (done_iff_success
                  [ "process_logo.py"; "logo.png"; "out.png" ] sample_world)).
  vm_compute. reflexivity.
Defined.

(** Running the program again on the file it wrote, with that file as
    input and output, ends well and leaves the disk as it is: the
    output file is a fixed point of the program. *)
Theorem rerun_keeps_output (prog inp out prog' : string) (rest rest' : list string)
    (w w1 : world) (d : decoded) :
  disk w !! inp = Some (ImageFile d) -> wf_decoded d ->
  run (prog :: inp :: out :: rest) w = (w1, Ok tt) ->
  exists w2,
    run (prog' :: out :: out :: rest') w1 = (w2, Ok tt) /\
    disk w2 = disk w1.
Proof.
  intros Hin Hwf. rewrite run_paths, Hin.
  destruct (process_cases _ (convert_RGBA_wf d Hwf))
    as (img & Hp & Hwfi & Hfix & Hstep & _).
  rewrite Hp. destruct (creatable w out) eqn:Hout; [|discriminate].
  intros [= <-]. rewrite run_paths. simpl.
  rewrite lookup_insert_eq. unfold png at 1. rewrite convert_decoded_of.
  rewrite process_thresholded by assumption.
  rewrite thresholded_fixed by assumption. rewrite Hstep, Hout.
  eexists. split; [reflexivity|]. simpl. apply insert_insert_eq.
Qed.

Lemma rerun_keeps_output_witness :
  disk sample_world !! "logo.png" = Some (ImageFile (decoded_of sample_logo)) /\
  wf_decoded (decoded_of sample_logo) /\
  run [ "process_logo.py"; "logo.png"; "out.png" ] sample_world
    = (fst (run [ "process_logo.py"; "logo.png"; "out.png" ] sample_world), Ok tt) /\
  exists w2,
    run [ "process_logo.py"; "out.png"; "out.png" ]
        (fst (run [ "process_logo.py"; "logo.png"; "out.png" ] sample_world))
      = (w2, Ok tt) /\
    disk w2 = disk (fst (run [ "process_logo.py"; "logo.png"; "out.png" ] sample_world)).
Proof.
  assert (Hrun : run [ "process_logo.py"; "logo.png"; "out.png" ] sample_world
                 = (fst (run [ "process_logo.py"; "logo.png"; "out.png" ] sample_world),
                    Ok tt)).
  { rewrite run_paths.
    replace (disk sample_world !! "logo.png")
      with (Some (ImageFile (decoded_of sample_logo))) by (vm_compute; reflexivity).
    reflexivity. }
  split; [vm_compute; reflexivity|]. split; [solve_wf_decoded|]. split; [exact Hrun|].
  apply (rerun_keeps_output "process_logo.py" "logo.png" "out.png" "process_logo.py"
           [] [] sample_world _ (decoded_of sample_logo));
    [vm_compute; reflexivity | solve_wf_decoded | exact Hrun].
Defined.

(** A run keeps the disk well formed: if every image file decodes to a
    well-formed raster before the run, so does every image file after
    it, the written one included. *)
Theorem run_keeps_disk_wf (argv : list string) (w : world) :
  wf_disk w -> wf_disk (fst (run argv w)).
Proof.
  intros Hdisk.
  destruct (Nat.lt_ge_cases (length argv) 3) as [Hlen|Hlen].
  - rewrite run_short by assumption. exact Hdisk.
  - destruct argv as [|prog [|inp [|out rest]]]; simpl in Hlen; try lia.
    rewrite run_paths.
    destruct (disk w !! inp) as [[d|]|] eqn:Hin; try exact Hdisk.
    destruct (process_cases _ (convert_RGBA_wf d (Hdisk _ _ Hin)))
      as (img & -> & [Hw Hh Hlen' Hby] & _).
    destruct (creatable w out); [|exact Hdisk].
    intros path d' Hd'. simpl in Hd'.
    rewrite lookup_insert in Hd'. case_decide.
    + injection Hd' as <-. split; simpl; assumption.
    + now apply (Hdisk path).
Qed.

Lemma run_keeps_disk_wf_witness :
  wf_disk sample_world /\
  wf_disk (fst (run [ "process_logo.py"; "logo.png"; "out.png" ] sample_world)).
Proof.
  split; [solve_wf_sample_world|].
  apply (run_keeps_disk_wf [ "process_logo.py"; "logo.png"; "out.png" ] sample_world).
  solve_wf_sample_world.
Defined.
